(** * A model of the COP4635 HTTP server core

    Shallow embedding of the request parser, the URI resolver, the response
    builders and composer, the per-connection loop and the socket send loop,
    together with the properties they satisfy (and the ones they miss).

    [std::string] and [std::string_view] values are byte sequences and are
    modelled as [list ascii]; indices are [nat]; [size_t]/[ssize_t]
    arithmetic that can wrap is written out over [Z]. *)

From Stdlib Require Import ZArith Lia Ascii String DecimalString.
From stdpp Require Import base decidable option list strings gmap.

Local Open Scope Z_scope.
Local Open Scope nat_scope.

(** ** Byte strings *)

Abbreviation bytes := (list ascii).

Definition str (s : string) : bytes := list_ascii_of_string s.

Definition CR : ascii := "013"%char.
Definition LF : ascii := "010"%char.
Definition CRLF : bytes := [CR; LF].
Definition CRLFCRLF : bytes := [CR; LF; CR; LF].

(** [hay.substr(0, needle.size()) == needle] *)
Fixpoint is_prefix (needle hay : bytes) : bool :=
  match needle, hay with
  | [], _ => true
  | _ :: _, [] => false
  | a :: needle', b :: hay' => bool_decide (a = b) && is_prefix needle' hay'
  end.

(** First index of an occurrence of [needle] in [hay], [None] for [npos]. *)
Fixpoint find0 (needle hay : bytes) : option nat :=
  if is_prefix needle hay then Some 0
  else match hay with
       | [] => None
       | _ :: hay' => S <$> find0 needle hay'
       end.

(** [hay.find(needle, pos)] *)
Definition find (hay needle : bytes) (pos : nat) : option nat :=
  if decide (pos ≤ length hay)
  then (λ i, pos + i) <$> find0 needle (drop pos hay)
  else None.

(** [s.substr(pos, n)] for [pos <= s.size()] (every call site guarantees it). *)
Definition substr (s : bytes) (pos n : nat) : bytes := take n (drop pos s).

(** [s.substr(pos)] *)
Definition substr_from (s : bytes) (pos : nat) : bytes := drop pos s.

(** [s.find_first_not_of(c, pos)] *)
Fixpoint find_first_not_of0 (c : ascii) (s : bytes) : option nat :=
  match s with
  | [] => None
  | a :: s' => if bool_decide (a = c) then S <$> find_first_not_of0 c s' else Some 0
  end.

Definition find_first_not_of (s : bytes) (c : ascii) (pos : nat) : option nat :=
  (λ i, pos + i) <$> find_first_not_of0 c (drop pos s).

(** [s.find_last_of(c)] *)
Fixpoint find_last_of (s : bytes) (c : ascii) : option nat :=
  match s with
  | [] => None
  | a :: s' =>
      match find_last_of s' c with
      | Some i => Some (S i)
      | None => if bool_decide (a = c) then Some 0 else None
      end
  end.

(** [std::to_string] on an unsigned value. *)
Definition to_string (n : N) : bytes := str (NilZero.string_of_uint (N.to_uint n)).

(** [std::tolower] on the C locale. *)
Definition tolower (c : ascii) : ascii :=
  let n := nat_of_ascii c in
  if bool_decide (65 ≤ n ≤ 90) then ascii_of_nat (n + 32) else c.

Definition toLower (s : bytes) : bytes := tolower <$> s.

(** ** Status codes, methods, media types and percent-decoding

    [http_status.hpp], [http_method.hpp], [http_mime.hpp] and
    [http_encoding.hpp] are lookup tables whose contents are fixed by the
    wire protocol. *)

Module status.
(** Modelled from the spec: the status enum of [http_status.hpp], with the
    supported codes and their exact reason phrases. *)
Inductive Code :=
  | OK | BAD_REQUEST | FORBIDDEN | NOT_FOUND
  | UNSUPPORTED_MEDIA_TYPE | INTERNAL_SERVER_ERROR | NOT_IMPLEMENTED.

(** Modelled from the spec: the numeric value of each supported code. *)
Definition number (c : Code) : N :=
  match c with
  | OK => 200 | BAD_REQUEST => 400 | FORBIDDEN => 403 | NOT_FOUND => 404
  | UNSUPPORTED_MEDIA_TYPE => 415 | INTERNAL_SERVER_ERROR => 500
  | NOT_IMPLEMENTED => 501
  end%N.

(** Modelled from the spec: [http::status::getCode], the code as decimal
    text. *)
Definition getCode (c : Code) : bytes := to_string (number c).

(** Modelled from the spec: [http::status::toString], the exact reason
    phrase. *)
Definition toString (c : Code) : bytes :=
  str match c with
      | OK => "OK" | BAD_REQUEST => "Bad Request" | FORBIDDEN => "Forbidden"
      | NOT_FOUND => "Not Found"
      | UNSUPPORTED_MEDIA_TYPE => "Unsupported Media Type"
      | INTERNAL_SERVER_ERROR => "Internal Server Error"
      | NOT_IMPLEMENTED => "Not Implemented"
      end.

#[global] Instance Code_eq_dec : EqDecision Code.
Proof. solve_decision. Defined.
End status.

Module method.
(** Modelled from the spec: the method enum of [http_method.hpp] is GET,
    POST and the sentinel INVALID; [fromString] maps every other token to
    the sentinel and [isValid] rejects exactly the sentinel. *)
Inductive Method := GET | POST | INVALID.

#[global] Instance Method_eq_dec : EqDecision Method.
Proof. solve_decision. Defined.

(** Modelled from the spec: [http::method::toString]. *)
Definition toString (m : Method) : bytes :=
  str match m with GET => "GET" | POST => "POST" | INVALID => "INVALID" end.

(** Modelled from the spec: [http::method::fromString]; a token that is not
    a known method becomes the sentinel. *)
Definition fromString (s : bytes) : Method :=
  if bool_decide (s = str "GET") then GET
  else if bool_decide (s = str "POST") then POST
  else INVALID.

(** Modelled from the spec: [http::method::isValid]; only the sentinel is
    not valid. *)
Definition isValid (m : Method) : bool := negb (bool_decide (m = INVALID)).
End method.

Module mime.
(** Modelled from the spec: the media enum and extension table of
    [http_mime.hpp]. *)
Inductive Media :=
  | TEXT_HTML | TEXT_CSS | TEXT_JAVASCRIPT | TEXT_PLAIN | APP_JSON | APP_FORM
  | IMAGE_PNG | IMAGE_JPEG | IMAGE_GIF | IMAGE_SVG | IMAGE_ICO | FONT_WOFF2
  | INVALID.

#[global] Instance Media_eq_dec : EqDecision Media.
Proof. solve_decision. Defined.

(** Modelled from the spec: [http::mime::toString]. *)
Definition toString (m : Media) : bytes :=
  str match m with
      | TEXT_HTML => "text/html" | TEXT_CSS => "text/css"
      | TEXT_JAVASCRIPT => "text/javascript" | TEXT_PLAIN => "text/plain"
      | APP_JSON => "application/json"
      | APP_FORM => "application/x-www-form-urlencoded"
      | IMAGE_PNG => "image/png" | IMAGE_JPEG => "image/jpeg"
      | IMAGE_GIF => "image/gif" | IMAGE_SVG => "image/svg+xml"
      | IMAGE_ICO => "image/x-icon" | FONT_WOFF2 => "font/woff2"
      | INVALID => ""
      end.

(** Modelled from the spec: the extension table. *)
Definition table : list (string * Media) :=
  [ (".html", TEXT_HTML); (".htm", TEXT_HTML); (".css", TEXT_CSS);
    (".js", TEXT_JAVASCRIPT); (".txt", TEXT_PLAIN); (".json", APP_JSON);
    (".png", IMAGE_PNG); (".jpg", IMAGE_JPEG); (".jpeg", IMAGE_JPEG);
    (".gif", IMAGE_GIF); (".svg", IMAGE_SVG); (".ico", IMAGE_ICO);
    (".woff2", FONT_WOFF2) ]%string.

(** Modelled from the spec: [http::mime::fromExtension]; an extension
    outside the table is INVALID. *)
Definition fromExtension (ext : bytes) : Media :=
  match list_find (λ e, str e.1 = ext) table with
  | Some (_, (_, m)) => m
  | None => INVALID
  end.
End mime.

Module encoding.
Definition hex_digit (c : ascii) : option nat :=
  let n := nat_of_ascii c in
  if bool_decide (48 ≤ n ≤ 57) then Some (n - 48)
  else if bool_decide (65 ≤ n ≤ 70) then Some (n - 55)
  else if bool_decide (97 ≤ n ≤ 102) then Some (n - 87)
  else None.

(** Modelled from the spec: [http::encoding::decode] of
    [http_encoding.hpp]; [%HH] becomes the byte with hex value HH, every
    other byte passes through literally. *)
Fixpoint decode (s : bytes) : bytes :=
  match s with
  | [] => []
  | c :: s' =>
      match s' with
      | h :: l :: s'' =>
          if bool_decide (c = "%"%char) then
            match hex_digit h, hex_digit l with
            | Some a, Some b => ascii_of_nat (16 * a + b) :: decode s''
            | _, _ => c :: decode s'
            end
          else c :: decode s'
      | _ => c :: decode s'
      end
  end.
End encoding.

(** ** Messages

    [HttpRequest] and [HttpResponse] both derive from [HttpMessage], which
    holds the version, the header map and the body. *)

Abbreviation Headers := (list (bytes * bytes)).

(** Modelled from the spec: [HttpMessage::getHeader]; the header map of
    [http_message.hpp] is a case-insensitive mapping from name to raw value
    that preserves the first occurrence on a duplicate name. *)
Fixpoint getHeader (h : Headers) (key : bytes) : option bytes :=
  match h with
  | [] => None
  | (k, v) :: h' =>
      if bool_decide (toLower k = toLower key) then Some v else getHeader h' key
  end.

(** Modelled from the spec: [HttpMessage::setHeader] on that map; a name
    that is already present keeps its first value. *)
Definition setHeader (key value : bytes) (h : Headers) : Headers :=
  match getHeader h key with
  | Some _ => h
  | None => h ++ [(key, value)]
  end.

(** Modelled from the spec: a fresh message speaks [HTTP/1.1]. *)
Definition default_version : bytes := str "HTTP/1.1".

Record HttpRequest := mkRequest {
  req_method : bytes;
  req_uri : bytes;
  req_version : bytes;
  req_headers : Headers;
  req_body : bytes
}.

Record HttpResponse := mkResponse {
  resp_status : status.Code;
  resp_isStatic : bool;
  resp_version : bytes;
  resp_headers : Headers;
  resp_body : bytes
}.

(** [HttpRequest()] *)
Definition new_request : HttpRequest := mkRequest [] [] default_version [] [].

(** [HttpResponse() : status(OK), isStatic(false)] *)
Definition new_response : HttpResponse :=
  mkResponse status.OK false default_version [] [].

Definition req_setMethod (m : method.Method) (r : HttpRequest) : HttpRequest :=
  mkRequest (method.toString m) (req_uri r) (req_version r) (req_headers r) (req_body r).
Definition req_setURI (u : bytes) (r : HttpRequest) : HttpRequest :=
  mkRequest (req_method r) u (req_version r) (req_headers r) (req_body r).
Definition req_setVersion (v : bytes) (r : HttpRequest) : HttpRequest :=
  mkRequest (req_method r) (req_uri r) v (req_headers r) (req_body r).
Definition req_setHeader (k v : bytes) (r : HttpRequest) : HttpRequest :=
  mkRequest (req_method r) (req_uri r) (req_version r) (setHeader k v (req_headers r)) (req_body r).
Definition req_setBody (b : bytes) (r : HttpRequest) : HttpRequest :=
  mkRequest (req_method r) (req_uri r) (req_version r) (req_headers r) b.
Definition req_getHeader (r : HttpRequest) (k : bytes) : option bytes :=
  getHeader (req_headers r) k.

Definition resp_setStatus (c : status.Code) (r : HttpResponse) : HttpResponse :=
  mkResponse c (resp_isStatic r) (resp_version r) (resp_headers r) (resp_body r).
Definition resp_setIsStatic (b : bool) (r : HttpResponse) : HttpResponse :=
  mkResponse (resp_status r) b (resp_version r) (resp_headers r) (resp_body r).
Definition resp_setHeader (k v : bytes) (r : HttpResponse) : HttpResponse :=
  mkResponse (resp_status r) (resp_isStatic r) (resp_version r)
             (setHeader k v (resp_headers r)) (resp_body r).
Definition resp_setBody (b : bytes) (r : HttpResponse) : HttpResponse :=
  mkResponse (resp_status r) (resp_isStatic r) (resp_version r) (resp_headers r) b.
Definition resp_getHeader (r : HttpResponse) (k : bytes) : option bytes :=
  getHeader (resp_headers r) k.

(** [HttpResponse::getStatusLine] *)
Definition resp_getStatusLine (r : HttpResponse) : bytes :=
  resp_version r ++ str " " ++ to_string (status.number (resp_status r))
    ++ str " " ++ status.toString (resp_status r).

(** ** Request parser ([http_request.cpp]) *)

Definition isspace (c : ascii) : bool :=
  let n := nat_of_ascii c in bool_decide (n = 32 ∨ 9 ≤ n ≤ 13).

Definition digit_value (c : ascii) : option Z :=
  let n := nat_of_ascii c in
  if bool_decide (48 ≤ n ≤ 57) then Some (Z.of_nat (n - 48)) else None.

(** Longest run of leading decimal digits, accumulated base 10. *)
Fixpoint digits (s : bytes) (acc : Z) (seen : bool) : Z * bool :=
  match s with
  | [] => (acc, seen)
  | c :: s' =>
      match digit_value c with
      | Some d => digits s' (10 * acc + d)%Z true
      | None => (acc, seen)
      end
  end.

Fixpoint skip_space (s : bytes) : bytes :=
  match s with
  | c :: s' => if isspace c then skip_space s' else s
  | [] => []
  end.

Definition ULONG_MAX : Z := (2 ^ 64 - 1)%Z.

Inductive stoul_result :=
  | stoul_value (n : Z)
  | stoul_invalid_argument
  | stoul_out_of_range.

(** [std::stoul(s)] in base 10 on an LP64 target: leading white space and one
    sign are skipped, the longest digit prefix is converted, trailing bytes
    are ignored; a minus sign negates in [unsigned long]. *)
Definition stoul (s : bytes) : stoul_result :=
  let s1 := skip_space s in
  let '(neg, s2) :=
    match s1 with
    | c :: t =>
        if bool_decide (c = "-"%char) then (true, t)
        else if bool_decide (c = "+"%char) then (false, t)
        else (false, s1)
    | [] => (false, s1)
    end in
  match digits s2 0%Z false with
  | (_, false) => stoul_invalid_argument
  | (v, true) =>
      if bool_decide (ULONG_MAX < v)%Z then stoul_out_of_range
      else stoul_value (if neg then (- v) mod 2 ^ 64 else v)%Z
  end.

(** [HttpRequest::parseStartLine]; [None] is the [false] return. *)
Definition parseStartLine (line : bytes) (r : HttpRequest) : option HttpRequest :=
  match find line (str " ") 0 with
  | None => None
  | Some methodEnd =>
      match find line (str " ") (methodEnd + 1) with
      | None => None
      | Some uriEnd =>
          let methodStr := substr line 0 methodEnd in
          let m := method.fromString methodStr in
          if negb (method.isValid m) then None
          else Some (req_setVersion (substr_from line (uriEnd + 1))
                      (req_setURI (substr line (methodEnd + 1) (uriEnd - methodEnd - 1))
                        (req_setMethod m r)))
      end
  end.

(** Body of the loop of [HttpRequest::parseHeaders] for one header line. *)
Definition parseHeaderLine (header : bytes) (r : HttpRequest) : HttpRequest :=
  if bool_decide (header = []) then r
  else match find header (str ":") 0 with
       | Some separator =>
           let value :=
             match find_first_not_of header " "%char (separator + 1) with
             | Some valueStart => substr_from header valueStart
             | None => []
             end in
           req_setHeader (substr header 0 separator) value r
       | None => r
       end.

(** The [while(pos < headersBlock.size())] loop; every turn moves [pos]
    forward, so [length headersBlock] turns always suffice. *)
Fixpoint parseHeaders_loop (fuel : nat) (headersBlock : bytes) (pos : nat)
    (r : HttpRequest) : HttpRequest :=
  match fuel with
  | 0 => r
  | S fuel' =>
      if decide (pos < length headersBlock) then
        let end_ := default (length headersBlock) (find headersBlock CRLF pos) in
        let header := substr headersBlock pos (end_ - pos) in
        let pos' := if decide (end_ = length headersBlock) then end_ else end_ + 2 in
        parseHeaders_loop fuel' headersBlock pos' (parseHeaderLine header r)
      else r
  end.

(** [HttpRequest::parseHeaders] *)
Definition parseHeaders (headersBlock : bytes) (r : HttpRequest) : HttpRequest :=
  parseHeaders_loop (length headersBlock) headersBlock 0 r.

(** What [parseBody] logs before it returns [false]. *)
Inductive BodyFailure :=
  | IncompleteBody
  | InvalidContentLength
  | ContentLengthOutOfRange.

(** [HttpRequest::parseBody]; [inl] is the [false] return. *)
Definition parseBody (rawData : bytes) (bodyStart : nat) (r : HttpRequest)
    : BodyFailure + HttpRequest :=
  if decide (bodyStart < length rawData) then
    match req_getHeader r (str "Content-Length") with
    | Some contentLengthHeader =>
        match stoul contentLengthHeader with
        | stoul_value contentLength =>
            if decide (contentLength ≤ Z.of_nat (length rawData - bodyStart))%Z
            then inr (req_setBody (substr rawData bodyStart (Z.to_nat contentLength)) r)
            else inl IncompleteBody
        | stoul_invalid_argument => inl InvalidContentLength
        | stoul_out_of_range => inl ContentLengthOutOfRange
        end
    | None => inr r
    end
  else inr (req_setBody [] r).

(** What [parse] logs before it returns [false]. *)
Inductive ParseFailure :=
  | MissingStartLineEnd
  | InvalidStartLine
  | MissingHeadersEnd
  | InvalidBody (why : BodyFailure).

(** [HttpRequest::parse] on a fresh request; [inl] is the [false] return. *)
Definition parse (rawData : bytes) : ParseFailure + HttpRequest :=
  match find rawData CRLF 0 with
  | None => inl MissingStartLineEnd
  | Some startLineEnd =>
      let startLine := substr rawData 0 startLineEnd in
      match parseStartLine startLine new_request with
      | None => inl InvalidStartLine
      | Some r1 =>
          let headersStart := startLineEnd + 2 in
          match find rawData CRLFCRLF headersStart with
          | None => inl MissingHeadersEnd
          | Some headersEnd =>
              let headersBlock := substr rawData headersStart (headersEnd - headersStart) in
              let r2 := parseHeaders headersBlock r1 in
              let bodyStart := headersEnd + 4 in
              match parseBody rawData bodyStart r2 with
              | inl why => inl (InvalidBody why)
              | inr r3 => inr r3
              end
          end
      end
  end.

(** ** File system and configuration

    [realpath(3)], [stat(2)] and the [std::ifstream] read are the server's
    view of the file system; [Config] carries the two settings the resolver
    reads. *)

Record Stat := mkStat { st_isreg : bool; st_size : Z }.

Inductive ifstream_outcome :=
  | open_failed
  | tellg_failed
  | read_failed
  | read_ok (content : bytes).

Record FileSystem := mkFS {
  realpath : bytes → option bytes;
  stat : bytes → option Stat;
  ifstream_read : bytes → ifstream_outcome
}.

Record Config := mkConfig { rootFolder : bytes; indexFile : bytes }.

(** ** URI resolver ([file_resolver.cpp]) *)

Section Resolver.
Variable fs : FileSystem.
Variable cfg : Config.

(** [targetPath = root; if(!root.empty() && root.back() != '/') push_back('/')] *)
Definition with_slash (root : bytes) : bytes :=
  if bool_decide (root ≠ [] ∧ last root ≠ Some "/"%char)
  then root ++ str "/" else root.

(** [FileResolver::sanitizePath]; [inl] holds the path, [inr] the status. *)
Definition sanitizePath (uri : bytes) : bytes + status.Code :=
  match realpath fs (rootFolder cfg) with
  | None => inr status.INTERNAL_SERVER_ERROR
  | Some root =>
      let targetPath :=
        if bool_decide (uri = [] ∨ uri = str "/")
        then with_slash root ++ indexFile cfg
        else
          let relative := match uri with
                          | c :: t => if bool_decide (c = "/"%char) then t else uri
                          | [] => uri
                          end in
          with_slash root ++ relative in
      match realpath fs targetPath with
      | None => inr status.NOT_FOUND
      | Some fullPath =>
          if bool_decide (find fullPath root 0 ≠ Some 0) then inr status.FORBIDDEN
          else match stat fs fullPath with
               | None => inr status.NOT_FOUND
               | Some pathStat =>
                   if negb (st_isreg pathStat) then inr status.FORBIDDEN
                   else inl fullPath
               end
      end
  end.

(** [FileResolver::readFile]; [inl] holds the status, [inr] the contents.
    The outcomes of [std::ifstream] are those of a regular file: the GET
    builder calls [readFile] behind its [S_ISREG] checks only. *)
Definition readFile (path : bytes) : status.Code + bytes :=
  match ifstream_read fs path with
  | open_failed =>
      inl (match stat fs path with
           | Some _ => status.FORBIDDEN
           | None => status.NOT_FOUND
           end)
  | tellg_failed => inl status.INTERNAL_SERVER_ERROR
  | read_failed => inl status.INTERNAL_SERVER_ERROR
  | read_ok content => inr content
  end.
End Resolver.

(** The containment the resolver is meant to enforce: [path] is [root] itself
    or lies below it, the match ending at a directory boundary. *)
Definition under_root (root path : bytes) : Prop :=
  path = root ∨ ∃ rest, path = with_slash root ++ rest.

(** ** Response builders ([response_builder.cpp]) *)

(** [std::variant<HttpResponse, http::status::Code>] *)
Abbreviation ResponseResult := (HttpResponse + status.Code)%type.

Definition MAX_FILE_SIZE : Z := 128 * 1024.

(** [static_cast<size_t>] of a signed 64-bit value. *)
Definition to_size_t (z : Z) : Z := (z mod 2 ^ 64)%Z.

(** The last-dot extension the GET builder classifies. *)
Definition extension_of (validPath : bytes) : bytes :=
  match find_last_of validPath "."%char with
  | Some dotPos => substr_from validPath dotPos
  | None => []
  end.

Section GetBuilder.
Variable fs : FileSystem.
Variable cfg : Config.

(** [GetResponseBuilder::buildResponse] *)
Definition GetResponseBuilder_buildResponse (request : HttpRequest) : ResponseResult :=
  let uri := req_uri request in
  match sanitizePath fs cfg uri with
  | inr code => inr code
  | inl validPath =>
      match stat fs validPath with
      | None => inr status.NOT_FOUND
      | Some st =>
          if negb (st_isreg st) then inr status.NOT_FOUND
          else
            let m := mime.fromExtension (extension_of validPath) in
            if bool_decide (m = mime.INVALID) then inr status.UNSUPPORTED_MEDIA_TYPE
            else
              let mimeType := mime.toString m in
              let fileSize := to_size_t (st_size st) in
              let isStatic := bool_decide (MAX_FILE_SIZE < fileSize)%Z in
              let response :=
                resp_setHeader (str "Content-Type") mimeType
                  (resp_setStatus status.OK new_response) in
              if isStatic then
                inl (resp_setIsStatic true
                      (resp_setBody []
                        (resp_setHeader (str "File-Path") validPath
                          (resp_setHeader (str "Content-Length")
                             (to_string (Z.to_N fileSize)) response))))
              else
                match readFile fs validPath with
                | inl code => inr code
                | inr contentStr =>
                    inl (resp_setIsStatic false
                          (resp_setBody contentStr
                            (resp_setHeader (str "Content-Length")
                               (to_string (N.of_nat (length contentStr))) response)))
                end
      end
  end.
End GetBuilder.

(** The tokens the [while(std::getline(bodyStream, keyValue, delim))] loop
    sees: the pieces between delimiters, with no empty piece after a final
    delimiter (the read that extracts nothing fails and ends the loop). *)
Fixpoint getlines (delim : ascii) (stream : bytes) : list bytes :=
  match stream with
  | [] => []
  | c :: rest =>
      if bool_decide (c = delim) then [] :: getlines delim rest
      else match getlines delim rest with
           | [] => [[c]]
           | tok :: toks => (c :: tok) :: toks
           end
  end.

(** The key and value the loop body computes for one [keyValue]. *)
Definition form_pair (keyValue : bytes) : bytes * bytes :=
  let pos := find keyValue (str "=") 0 in
  let key := match pos with
             | None => []
             | Some p => encoding.decode (substr keyValue 0 p)
             end in
  let value := match pos with
               | None => []
               | Some p =>
                   if bool_decide (p = length keyValue - 1) then []
                   else encoding.decode (substr_from keyValue (p + 1))
               end in
  (key, value).

(** [formData[key] = value] for one pair. *)
Definition form_step (formData : gmap bytes bytes) (keyValue : bytes) : gmap bytes bytes :=
  <[(form_pair keyValue).1 := (form_pair keyValue).2]> formData.

(** The form data after the loop has seen every pair of the body, in order. *)
Definition parse_form (body : bytes) : gmap bytes bytes :=
  foldl form_step ∅ (getlines "&"%char body).

(** The keys that [operator[]] is called with, in the order of the loop. *)
Definition form_keys (body : bytes) : list bytes :=
  (λ keyValue, (form_pair keyValue).1) <$> getlines "&"%char body.

(** The order in which a range-for visits a [std::unordered_map] is left to
    the implementation: it follows from the hash function, the bucket count
    and the history of insertions.  It is a parameter of the model: for a
    map on which [operator[]] was called with [keys], in this order,
    [visit keys] are the keys of the map in the order of the traversal. *)
Definition Traversal : Type := list bytes → list bytes.

(** What every implementation guarantees: each key of the map is visited,
    and visited once. *)
Definition visits_each_key_once (visit : Traversal) : Prop :=
  ∀ keys, NoDup (visit keys) ∧ ∀ k, k ∈ visit keys ↔ k ∈ keys.

(** One such traversal, from the key inserted last to the key inserted
    first.  It serves the worked examples. *)
Definition newest_first : Traversal := λ keys, remove_dups (reverse keys).

(** What [for(const auto& [key, value] : formData)] yields. *)
Definition form_entries (visit : Traversal) (body : bytes) : list (bytes * bytes) :=
  (λ key, (key, default [] (parse_form body !! key))) <$> visit (form_keys body).

(** One line of the echo. *)
Definition echo_line (kv : bytes * bytes) : bytes := kv.1 ++ str ": " ++ kv.2 ++ CRLF.

(** The echoed text for the entries in the order of the traversal. *)
Definition form_echo (entries : list (bytes * bytes)) : bytes :=
  str "Received form data:" ++ CRLF ++ concat (echo_line <$> entries) ++ str "POST Successful!".

(** [PostResponseBuilder::buildResponse] *)
Definition PostResponseBuilder_buildResponse (visit : Traversal) (request : HttpRequest)
    : ResponseResult :=
  let requestContentType := default [] (req_getHeader request (str "Content-Type")) in
  let requestContentType :=
    match find requestContentType (str ";") 0 with
    | Some semicolon => substr requestContentType 0 semicolon
    | None => requestContentType
    end in
  if bool_decide (requestContentType ≠ mime.toString mime.APP_FORM)
  then inr status.UNSUPPORTED_MEDIA_TYPE
  else if bool_decide (req_uri request ≠ str "/submit") then inr status.NOT_FOUND
  else
    let responseBody := form_echo (form_entries visit (req_body request)) in
    inl (resp_setBody responseBody
          (resp_setHeader (str "Connection") (str "close")
            (resp_setHeader (str "Content-Length") (to_string (N.of_nat (length responseBody)))
              (resp_setHeader (str "Content-Type") (mime.toString mime.TEXT_HTML)
                (resp_setStatus status.OK new_response))))).

(** ** Builder registry ([response_builder_factory.cpp])

    [HttpServer] registers a builder for GET and one for POST; every other
    method finds no builder. *)

Inductive Builder := GetBuilder | PostBuilder.

Definition createBuilder (m : method.Method) : option Builder :=
  match m with
  | method.GET => Some GetBuilder
  | method.POST => Some PostBuilder
  | method.INVALID => None
  end.

Definition buildResponse (visit : Traversal) (fs : FileSystem) (cfg : Config) (b : Builder)
    (request : HttpRequest) : ResponseResult :=
  match b with
  | GetBuilder => GetResponseBuilder_buildResponse fs cfg request
  | PostBuilder => PostResponseBuilder_buildResponse visit request
  end.

(** ** Response composer ([response_composer.cpp]) *)

Definition header_line (kv : bytes * bytes) : bytes := kv.1 ++ str ": " ++ kv.2 ++ CRLF.

(** [ResponseComposer::composeResponseString] *)
Definition composeResponseString (response : HttpResponse) : bytes :=
  resp_getStatusLine response ++ CRLF
    ++ concat (header_line <$> resp_headers response) ++ CRLF.

(** [ResponseComposer::composeErrorMessage]: the response as left behind in
    the reference argument, and the returned string. *)
Definition composeErrorMessage (response : HttpResponse) (code : status.Code)
    : HttpResponse * bytes :=
  let body := status.getCode code ++ str " " ++ status.toString code in
  let response' :=
    resp_setBody body
      (resp_setHeader (str "Connection") (str "close")
        (resp_setHeader (str "Content-Length") (to_string (N.of_nat (length body)))
          (resp_setHeader (str "Content-Type") (mime.toString mime.TEXT_HTML)
            (resp_setStatus code response)))) in
  (response', concat (header_line <$> resp_headers response') ++ CRLF ++ resp_body response').

(** ** [Socket::send] ([socket.cpp]) *)

(** What one [::send] or [::recv] system call does: it moves [n] bytes, or
    fails with an [errno]. *)
Inductive SysResult := sys_ok (n : Z) | sys_err (errno : Z).

Definition EAGAIN : Z := 11.
Definition EWOULDBLOCK : Z := 11.
Definition EPIPE : Z := 32.
Definition ECONNRESET : Z := 104.

(** What a caller of a socket operation can observe. *)
Inductive SocketOutcome :=
  | returned (value : Z)
  | threw (errno : Z).

(** [static_cast<ssize_t>] of a [size_t] value. *)
Definition to_ssize_t (z : Z) : Z :=
  (if bool_decide (z mod 2 ^ 64 < 2 ^ 63) then z mod 2 ^ 64 else z mod 2 ^ 64 - 2 ^ 64)%Z.

(** The [while(totalSent < len)] loop of [Socket::send] against the answers
    the kernel gives to the successive [::send] calls.  [totalSent] is a
    [size_t]: adding a negative [bytesSent] wraps.  [None] means the answers
    ran out while the loop was still going. *)
Fixpoint send_loop (kernel : list SysResult) (len totalSent : Z) : option SocketOutcome :=
  if bool_decide (totalSent < len)%Z then
    match kernel with
    | [] => None
    | sys_ok n :: kernel' => send_loop kernel' len (to_size_t (totalSent + n))
    | sys_err errno :: kernel' =>
        if bool_decide (errno = EAGAIN ∨ errno = EWOULDBLOCK) then send_loop kernel' len totalSent
        else send_loop kernel' len (to_size_t (totalSent + -1))
    end
  else Some (returned (to_ssize_t totalSent)).

(** [Socket::send(buf, len, flags)] *)
Definition Socket_send (kernel : list SysResult) (len : Z) : option SocketOutcome :=
  send_loop kernel len 0.

(** The offsets into the buffer handed to the successive [::send] calls. *)
Fixpoint send_offsets (kernel : list SysResult) (len totalSent : Z) : list Z :=
  if bool_decide (totalSent < len)%Z then
    match kernel with
    | [] => []
    | sys_ok n :: kernel' => totalSent :: send_offsets kernel' len (to_size_t (totalSent + n))
    | sys_err errno :: kernel' =>
        totalSent ::
        (if bool_decide (errno = EAGAIN ∨ errno = EWOULDBLOCK) then send_offsets kernel' len totalSent
         else send_offsets kernel' len (to_size_t (totalSent + -1)))
    end
  else [].

(** [Socket::recv]: the sibling that does report failures. *)
Definition Socket_recv (answer : SysResult) : SocketOutcome :=
  match answer with
  | sys_ok n => returned n
  | sys_err errno =>
      if bool_decide (errno = EAGAIN ∨ errno = EWOULDBLOCK) then returned (-1)
      else threw errno
  end.

(** ** [Socket::sendfile] ([socket.cpp]) *)

Definition EINVAL : Z := 22.

(** What one [::sendfile] system call does for a regular file with the
    bytes [file], read from [offset], when the peer accepts every byte: it
    fails with EINVAL when [count] is negative as an [ssize_t]; otherwise it
    moves the bytes that the file holds from [offset] on, [count] at most,
    and none at the end of the file. *)
Definition sys_sendfile (file : bytes) (offset count : Z) : SysResult * bytes :=
  if bool_decide (2 ^ 63 ≤ count)%Z then (sys_err EINVAL, [])
  else
    let data := take (Z.to_nat count) (drop (Z.to_nat offset) file) in
    (sys_ok (Z.of_nat (length data)), data).

(** How the loop of [Socket::sendfile] stands: it has returned a value, or
    it is still turning when the turns looked at are used up; in both cases
    with the bytes that went out. *)
Inductive SendfileOutcome :=
  | sendfile_returned (value : Z) (data : bytes)
  | sendfile_turning (data : bytes).

(** The [while(totalSent < count)] loop of [Socket::sendfile], at most
    [turns] turns of it.  As in [Socket::send], a failure other than
    would-block is added to the [size_t] counter as -1. *)
Fixpoint sendfile_loop (turns : nat) (file : bytes) (offset count totalSent : Z)
    (data : bytes) : SendfileOutcome :=
  if bool_decide (totalSent < count)%Z then
    match turns with
    | 0 => sendfile_turning data
    | S turns' =>
        match sys_sendfile file offset (count - totalSent) with
        | (sys_ok n, moved) =>
            sendfile_loop turns' file (offset + n) count (to_size_t (totalSent + n))
              (data ++ moved)
        | (sys_err errno, _) =>
            if bool_decide (errno = EAGAIN ∨ errno = EWOULDBLOCK)
            then sendfile_loop turns' file offset count totalSent data
            else sendfile_loop turns' file offset count (to_size_t (totalSent + -1)) data
        end
    end
  else sendfile_returned (to_ssize_t totalSent) data.

(** [Socket::sendfile(file_fd, &offset, count)] with [offset] 0.  Two turns
    decide the loop: the first call moves all the bytes there are to move,
    and when these are fewer than [count] every later call moves none, so
    the counter stays where it is and the loop never ends. *)
Definition Socket_sendfile (file : bytes) (count : Z) : SendfileOutcome :=
  sendfile_loop 2 file 0 count 0 [].

(** ** Connection handler ([connection_handler.cpp])

    The client socket is modelled by what has been put on the wire so far.
    The handler is followed on a peer that accepts every byte handed to
    [send] and [sendfile]; the branches taken only after a failed send are
    not reached there. *)

Definition sock_send (data wire : bytes) : bytes := wire ++ data.

(** What the read loop of [parseRequest] ends with: the bytes gathered when
    the header end was seen or the socket would block, the peer closing
    early, or a failure raised by [Socket::recv]. *)
Inductive Received :=
  | recv_data (requestData : bytes)
  | recv_peer_closed
  | recv_error (errno : Z).

(** The two handlers of [handleRequest]: [std::system_error], and every
    other [std::exception]. *)
Inductive Thrown :=
  | system_error (errno : Z)
  | other_exception.

(** How [sendResponse] ends: by returning, by an exception of [std::stoul]
    on the stored Content-Length after the headers went out, or not at all,
    when the loop of [Socket::sendfile] never ends. *)
Inductive Sent :=
  | sent (wire : bytes)
  | send_threw (wire : bytes)
  | send_never_ends (wire : bytes).

Section Handler.
Variable visit : Traversal.
Variable fs : FileSystem.
Variable cfg : Config.

(** [ConnectionHandler::sendErrorResponse(response, code)]: the composed
    string is dropped and only [response.getBody()] is sent. *)
Definition sendErrorResponse (response : HttpResponse) (code : status.Code)
    (wire : bytes) : bytes :=
  let response' := (composeErrorMessage response code).1 in
  sock_send (resp_body response') wire.

(** The static branch of [sendResponse] once the file is open and the
    number of bytes to send is known: a negative return of [sendfile] is
    answered with [sendErrorResponse]. *)
Definition send_static (response : HttpResponse) (content : bytes) (totalBytesToSend : Z)
    (wire : bytes) : Sent :=
  match Socket_sendfile content totalBytesToSend with
  | sendfile_returned bytesSent data =>
      if bool_decide (bytesSent < 0)%Z
      then sent (sendErrorResponse response status.INTERNAL_SERVER_ERROR (sock_send data wire))
      else sent (sock_send data wire)
  | sendfile_turning data => send_never_ends (sock_send data wire)
  end.

(** [ConnectionHandler::sendResponse].  The file behind [File-Path] is
    opened when [std::ifstream] can read it, and [fstat] reports the size of
    what it holds.  The Content-Length that the dynamic branch stores in the
    response after the headers went out does not reach the wire and is left
    out. *)
Definition sendResponse (response : HttpResponse) (wire : bytes) : Sent :=
  let responseHeadersStr := composeResponseString response in
  let wire := sock_send responseHeadersStr wire in
  if resp_isStatic response then
    let file := default [] (resp_getHeader response (str "File-Path")) in
    match ifstream_read fs file with
    | read_ok content =>
        match resp_getHeader response (str "Content-Length") with
        | Some contentLength =>
            match stoul contentLength with
            | stoul_value totalBytesToSend => send_static response content totalBytesToSend wire
            | _ => send_threw wire
            end
        | None => send_static response content (Z.of_nat (length content)) wire
        end
    | _ => sent wire
    end
  else sent (sock_send (resp_body response) wire).

(** [ConnectionHandler::parseRequest] *)
Definition parseRequest (input : Received) : Thrown + HttpRequest :=
  match input with
  | recv_error errno => inl (system_error errno)
  | recv_peer_closed => inl other_exception
  | recv_data requestData =>
      match parse requestData with
      | inl _ => inl other_exception
      | inr request => inr request
      end
  end.

(** The build step of [handleRequest]. *)
Definition build (request : HttpRequest) : ResponseResult :=
  match createBuilder (method.fromString (req_method request)) with
  | Some builder => buildResponse visit fs cfg builder request
  | None => inr status.NOT_IMPLEMENTED
  end.

(** The compose and keep-alive steps of [handleRequest]: the value it will
    return and the response it hands to [sendResponse]. *)
Definition respond (request : HttpRequest) (responseResult : ResponseResult)
    : bool * HttpResponse :=
  let response :=
    match responseResult with
    | inl built => built
    | inr code => (composeErrorMessage new_response code).1
    end in
  match req_getHeader request (str "Connection") with
  | Some connectionHeader =>
      if bool_decide (connectionHeader = str "keep-alive")
      then (true, resp_setHeader (str "Connection") (str "keep-alive") response)
      else (false, resp_setHeader (str "Connection") (str "close") response)
  | None => (true, resp_setHeader (str "Connection") (str "keep-alive") response)
  end.

(** [ConnectionHandler::handleRequest]: the keep-alive flag it returns, if
    it returns, and the wire. *)
Definition handleRequest (input : Received) (wire : bytes) : option bool * bytes :=
  match parseRequest input with
  | inr request =>
      let '(keepAlive, response) := respond request (build request) in
      match sendResponse response wire with
      | sent wire' => (Some keepAlive, wire')
      | send_threw wire' =>
          (Some false, sendErrorResponse new_response status.INTERNAL_SERVER_ERROR wire')
      | send_never_ends wire' => (None, wire')
      end
  | inl (system_error _) =>
      (Some false, sendErrorResponse new_response status.BAD_REQUEST wire)
  | inl other_exception =>
      (Some false, sendErrorResponse new_response status.INTERNAL_SERVER_ERROR wire)
  end.
End Handler.

(** The occasions for [Connection: close] that the properties below speak
    of. *)
Definition declines_keep_alive (request : HttpRequest) : bool :=
  match req_getHeader request (str "Connection") with
  | Some connectionHeader => negb (bool_decide (connectionHeader = str "keep-alive"))
  | None => false
  end.




(** ** The keep-alive loop ([ConnectionHandler::processRequests]) *)

Definition MAX_KEEP_ALIVE_REQUESTS : Z := 100.

(** How one call of [waitForData] ends: data is readable, nothing arrived
    (time-out, shutdown), or the poll failed. *)
Inductive Waited := data_ready | no_data | poll_failed.

Section KeepAlive.
(** Everything the two calls depend on and change: socket, peer, clock. *)
Context {Conn : Type}.
Variable waitForData : Conn → Waited * Conn.
Variable handleRequest_on : Conn → bool * Conn.

(** The [do { ... } while(true)] loop, with the local [requestCount]; the
    result also counts the completed [handleRequest] calls. *)
Fixpoint processRequests_loop (fuel : nat) (requestCount : Z) (cycles : nat)
    (c : Conn) : option (nat * Conn) :=
  match fuel with
  | 0 => None
  | S fuel' =>
      match waitForData c with
      | (data_ready, c1) =>
          let '(keepAlive, c2) := handleRequest_on c1 in
          let requestCount := (requestCount + 1)%Z in
          let cycles := S cycles in
          if bool_decide (MAX_KEEP_ALIVE_REQUESTS ≤ requestCount)%Z then Some (cycles, c2)
          else if negb keepAlive then Some (cycles, c2)
          else processRequests_loop fuel' requestCount cycles c2
      | (_, c1) => Some (cycles, c1)
      end
  end.

Definition processRequests (fuel : nat) (c : Conn) : option (nat * Conn) :=
  processRequests_loop fuel 0 0 c.
End KeepAlive.

(** ** A concrete file system

    A tree of directories and files without symbolic links, with the
    [realpath], [stat] and read behaviour that POSIX gives it.  It serves the
    worked examples, which read regular files only. *)

Inductive Node := Dir | File (content : bytes) (readable : bool).

Abbreviation Tree := (list (string * Node)).

Definition lookup_node (t : Tree) (p : bytes) : option Node :=
  match list_find (λ e, str e.1 = p) t with
  | Some (_, (_, n)) => Some n
  | None => None
  end.

(** The absolute path spelled by a stack of components, innermost first. *)
Definition render (stack : list bytes) : bytes :=
  match stack with
  | [] => str "/"
  | _ => concat ((λ c, "/"%char :: c) <$> rev stack)
  end.

(** One component of a path walk: the place walked from has to be a
    directory; [.] stays, [..] goes up, a name goes down. *)
Definition walk_step (t : Tree) (at_ : option (list bytes)) (comp : bytes)
    : option (list bytes) :=
  match at_ with
  | None => None
  | Some stack =>
      match lookup_node t (render stack) with
      | Some Dir =>
          if bool_decide (comp = [] ∨ comp = str ".") then Some stack
          else if bool_decide (comp = str "..") then Some (tail stack)
          else Some (comp :: stack)
      | _ => None
      end
  end.

(** [std::string::c_str()] as a C function reads it: the bytes before the
    first NUL. *)
Fixpoint c_str (s : bytes) : bytes :=
  match s with
  | [] => []
  | c :: s' => if bool_decide (c = "000"%char) then [] else c :: c_str s'
  end.

(** [realpath(path.c_str(), ...)] for an absolute path: the walk has to end
    at a node of the tree, and at a directory when the path ends with a
    slash. *)
Definition tree_realpath (t : Tree) (p : bytes) : option bytes :=
  match c_str p with
  | c :: rest =>
      if bool_decide (c = "/"%char) then
        match foldl (walk_step t) (Some []) (getlines "/"%char rest) with
        | Some stack =>
            match lookup_node t (render stack) with
            | Some Dir => Some (render stack)
            | Some (File _ _) =>
                if bool_decide (last rest = Some "/"%char) then None else Some (render stack)
            | None => None
            end
        | None => None
        end
      else None
  | [] => None
  end.

Definition tree_stat (t : Tree) (p : bytes) : option Stat :=
  match tree_realpath t p with
  | Some c =>
      match lookup_node t c with
      | Some Dir => Some (mkStat false 4096)
      | Some (File content _) => Some (mkStat true (Z.of_nat (length content)))
      | None => None
      end
  | None => None
  end.

Definition tree_read (t : Tree) (p : bytes) : ifstream_outcome :=
  match tree_realpath t p with
  | Some c =>
      match lookup_node t c with
      | Some (File content true) => read_ok content
      | Some (File _ false) => open_failed
      | Some Dir => read_failed
      | None => open_failed
      end
  | None => open_failed
  end.

Definition tree_fs (t : Tree) : FileSystem :=
  mkFS (tree_realpath t) (tree_stat t) (tree_read t).

(** A document root [/srv/www] next to a directory [/srv/www-private]. *)
Definition site : Tree :=
  [ ("/", Dir); ("/srv", Dir); ("/srv/www", Dir);
    ("/srv/www/index.html", File (str "<h1>It works</h1>") true);
    ("/srv/www/locked.html", File (str "<p>locked</p>") false);
    ("/srv/www-private", Dir);
    ("/srv/www-private/notes.html", File (str "<p>private</p>") true) ]%string.

Definition site_fs : FileSystem := tree_fs site.

Definition site_cfg : Config := mkConfig (str "/srv/www") (str "index.html").

(** A file system in which [/srv/www/big.html] is a 200000-byte file. *)
Definition big_fs : FileSystem :=
  mkFS (λ p, if bool_decide (p = str "/srv/www" ∨ p = str "/srv/www/big.html")
             then Some p else None)
       (λ p, if bool_decide (p = str "/srv/www/big.html") then Some (mkStat true 200000)
             else if bool_decide (p = str "/srv/www") then Some (mkStat false 4096)
             else None)
       (λ _, open_failed).

(** ** Building request bytes *)

(** Lines joined by CRLF, as in a header block. *)
Fixpoint join_lines (lines : list bytes) : bytes :=
  match lines with
  | [] => []
  | [l] => l
  | l :: ls => l ++ CRLF ++ join_lines ls
  end.

(** A start line, a header block and a body, laid out as on the wire. *)
Definition request_bytes (startLine : bytes) (lines : list bytes) (body : bytes) : bytes :=
  startLine ++ CRLF ++ join_lines lines ++ CRLFCRLF ++ body.

(** A line of a header block: not empty and free of carriage returns. *)
Definition header_text (l : bytes) : Prop := l ≠ [] ∧ CR ∉ l.

(** ** Requests used in the worked examples *)

Definition brew_request : bytes :=
  request_bytes (str "BREW /index.html HTTP/1.1") [str "Host: x"] [].

Definition get_index_request : bytes :=
  request_bytes (str "GET /index.html HTTP/1.1") [str "Host: x"] [].

Definition bodyless_post : bytes :=
  request_bytes (str "POST /submit HTTP/1.1")
    [str "Content-Type: application/x-www-form-urlencoded"; str "Content-Length: 5"] [].



Definition get_root : HttpRequest := mkRequest (str "GET") (str "/") (str "HTTP/1.1") [] [].

Definition get_locked : HttpRequest :=
  mkRequest (str "GET") (str "/locked.html") (str "HTTP/1.1") [] [].

Definition get_big : HttpRequest :=
  mkRequest (str "GET") (str "/big.html") (str "HTTP/1.1") [] [].

(** ** The read loop of [ConnectionHandler::parseRequest] *)

(** What one [client_socket->recv] call gives: the bytes read (none when the
    peer has closed), or a failure with its [errno]. *)
Inductive RecvAnswer :=
  | recv_got (data : bytes)
  | recv_failed (errno : Z).

(** The [while(true)] loop around [recv]: [Socket::recv] raises on a failure
    other than would-block; would-block ends the loop with what was gathered;
    no byte means the peer closed; otherwise the bytes are appended and the
    loop ends once the gathered data holds [\r\n\r\n].  [None] means the
    answers ran out while the loop was still reading. *)
Fixpoint read_loop (answers : list RecvAnswer) (requestData : bytes) : option Received :=
  match answers with
  | [] => None
  | recv_failed errno :: _ =>
      if bool_decide (errno = EAGAIN ∨ errno = EWOULDBLOCK) then Some (recv_data requestData)
      else Some (recv_error errno)
  | recv_got data :: answers' =>
      if bool_decide (data = []) then Some recv_peer_closed
      else
        let requestData := requestData ++ data in
        match find requestData CRLFCRLF 0 with
        | Some _ => Some (recv_data requestData)
        | None => read_loop answers' requestData
        end
  end.

(** [handleRequest] fed by the read loop. *)
Definition handleRequest_reading (visit : Traversal) (fs : FileSystem) (cfg : Config)
    (answers : list RecvAnswer) (wire : bytes) : option (option bool * bytes) :=
  match read_loop answers [] with
  | Some input => Some (handleRequest visit fs cfg input wire)
  | None => None
  end.

(** ** [ConnectionHandler::waitForData] *)

Definition KEEP_ALIVE_TIMEOUT : Z := 60000.

(** What one [ppoll] call reports. *)
Inductive Polled := poll_readable | poll_nothing | poll_error.

(** One turn of the waiting loop as the environment decides it: the value of
    [HttpServer::isRunning()] and the answer of the poll that follows. *)
Record Slice := mkSlice { slice_running : bool; slice_polled : Polled }.

(** The variant with the proactive close: 100 ms polls, and a return of
    [false] as soon as 500 ms have gone by; a failed poll raises.  The result
    carries the number of polls made. *)
Fixpoint waitForData_proactive (slices : list Slice) (totalElapsedMs : Z) (polls : nat)
    : option (Waited * nat) :=
  match slices with
  | [] => None
  | s :: slices' =>
      if slice_running s && bool_decide (totalElapsedMs < KEEP_ALIVE_TIMEOUT)%Z then
        match slice_polled s with
        | poll_readable => Some (data_ready, S polls)
        | poll_error => Some (poll_failed, S polls)
        | poll_nothing =>
            let totalElapsedMs := (totalElapsedMs + 100)%Z in
            if bool_decide (500 ≤ totalElapsedMs)%Z then Some (no_data, S polls)
            else waitForData_proactive slices' totalElapsedMs (S polls)
        end
      else Some (no_data, polls)
  end.

(** The variant without it: 100 ms polls until the keep-alive time-out; a
    failed poll returns [false]. *)
Fixpoint waitForData_patient (slices : list Slice) (totalElapsedMs : Z) (polls : nat)
    : option (Waited * nat) :=
  match slices with
  | [] => None
  | s :: slices' =>
      if slice_running s && bool_decide (totalElapsedMs < KEEP_ALIVE_TIMEOUT)%Z then
        match slice_polled s with
        | poll_readable => Some (data_ready, S polls)
        | poll_error => Some (no_data, S polls)
        | poll_nothing => waitForData_patient slices' (totalElapsedMs + 100)%Z (S polls)
        end
      else Some (no_data, polls)
  end.

(** ** [ThreadPool] ([thread_pool.cpp])

    The pool is followed through its critical sections: each step below is
    what one thread does while it holds [queue_mtx] (or, for the inline
    branch of [enqueue], before it would take it).  A connection counts as
    started when it is handed to a [ConnectionHandler]. *)

Record ThreadPool := mkPool {
  pool_workers : nat;
  pool_stop : bool;
  task_queue : list Z;
  pool_started : list Z;
  pool_dropped : list Z
}.

(** [ThreadPool(numThreads, ...)] *)
Definition new_pool (numThreads : nat) : ThreadPool := mkPool numThreads false [] [] [].

(** [isActive()] *)
Definition isActive (p : ThreadPool) : bool := negb (bool_decide (pool_workers p = 0)).

Inductive PoolStep :=
  | step_enqueue (client_socket : option Z)
  | step_worker_take
  | step_shutdown_begin
  | step_shutdown_join.

(** [ThreadPool::enqueue]: a null socket is refused; an inactive pool runs
    the handler at once; a stopping pool drops the socket; otherwise the
    socket is pushed. *)
Definition enqueue (client_socket : option Z) (p : ThreadPool) : ThreadPool :=
  match client_socket with
  | None => p
  | Some s =>
      if negb (isActive p) then
        mkPool (pool_workers p) (pool_stop p) (task_queue p) (pool_started p ++ [s]) (pool_dropped p)
      else if pool_stop p then
        mkPool (pool_workers p) (pool_stop p) (task_queue p) (pool_started p) (pool_dropped p ++ [s])
      else
        mkPool (pool_workers p) (pool_stop p) (task_queue p ++ [s]) (pool_started p) (pool_dropped p)
  end.

(** The critical section of [workerThread]: with a task in the queue the
    front one is taken and started; with an empty queue the worker waits (or
    leaves, when stopping) and nothing changes. *)
Definition worker_take (p : ThreadPool) : ThreadPool :=
  match task_queue p with
  | [] => p
  | s :: rest =>
      if isActive p then
        mkPool (pool_workers p) (pool_stop p) rest (pool_started p ++ [s]) (pool_dropped p)
      else p
  end.

(** The first half of [shutdown]: the stop flag is raised under the lock. *)
Definition shutdown_begin (p : ThreadPool) : ThreadPool :=
  mkPool (pool_workers p) true (task_queue p) (pool_started p) (pool_dropped p).

(** The second half: the joins return once every worker has left, which a
    worker does only with the stop flag up and the queue empty; then the
    vector of workers is cleared. *)
Definition shutdown_join (p : ThreadPool) : ThreadPool :=
  if pool_stop p && bool_decide (task_queue p = []) then
    mkPool 0 (pool_stop p) (task_queue p) (pool_started p) (pool_dropped p)
  else p.

Definition pool_step (p : ThreadPool) (s : PoolStep) : ThreadPool :=
  match s with
  | step_enqueue client_socket => enqueue client_socket p
  | step_worker_take => worker_take p
  | step_shutdown_begin => shutdown_begin p
  | step_shutdown_join => shutdown_join p
  end.

Definition pool_run (p : ThreadPool) (steps : list PoolStep) : ThreadPool :=
  foldl pool_step p steps.

(** The sockets that the steps hand to [enqueue], in order. *)
Definition offered (steps : list PoolStep) : list Z :=
  omap (λ s, match s with step_enqueue (Some fd) => Some fd | _ => None end) steps.

(** ** [EpollManager::waitForEvents] ([epoll_manager.cpp]) *)

(** What [epoll_wait] reports: a count with the events it filled in, or -1
    with an [errno]. *)
Inductive EpollAnswer :=
  | epoll_ready (ready_fds : list Z)
  | epoll_failed (errno : Z).

Definition EINTR : Z := 4.

(** [waitForEvents]: the vector starts with [max_events] zeroed entries and
    is resized only when the count is positive; a failure other than EINTR
    raises.  The result lists the descriptor of every returned event. *)
Definition waitForEvents (max_events : nat) (answer : EpollAnswer) : SocketOutcome + list Z :=
  match answer with
  | epoll_failed errno =>
      if bool_decide (errno ≠ EINTR) then inl (threw errno)
      else inr (replicate max_events 0%Z)
  | epoll_ready ready_fds =>
      let event_count := length (take max_events ready_fds) in
      if bool_decide (0 < event_count) then inr (take max_events ready_fds)
      else inr (replicate max_events 0%Z)
  end.

(** ** [n_utils::io_style::seperator] *)

(** [std::string::append(count, ch)] with an [int] count: a negative count
    turns into a huge [size_t] and the call raises [length_error], which in a
    [noexcept] function ends the program ([None]). *)
Definition append_fill (count : Z) (ch : ascii) (s : bytes) : option bytes :=
  if bool_decide (count < 0)%Z then None else Some (s ++ replicate (Z.to_nat count) ch).

Definition seperator (title : bytes) (fillChar : ascii) (lineWidth : Z) : option bytes :=
  if bool_decide (lineWidth < 0)%Z then Some []
  else if bool_decide (title = []) then Some (replicate (Z.to_nat lineWidth) fillChar)
  else
    let titleLength := Z.of_nat (length title) in
    let totalPadding := (lineWidth - titleLength - 2)%Z in
    let padding := (totalPadding ÷ 2)%Z in
    match append_fill padding fillChar [] with
    | None => None
    | Some s1 =>
        match append_fill padding fillChar (s1 ++ str " " ++ title ++ str " ") with
        | None => None
        | Some s2 =>
            if bool_decide (Z.rem totalPadding 2 ≠ 0)%Z then Some (s2 ++ [fillChar])
            else Some s2
        end
    end.

(** ** Joining tokens *)

(** Tokens joined by a delimiter, the text that [getlines] takes apart. *)
Fixpoint join_with (delim : ascii) (toks : list bytes) : bytes :=
  match toks with
  | [] => []
  | [t] => t
  | t :: toks' => t ++ delim :: join_with delim toks'
  end.

(** A header as the composer writes it, without the line terminator. *)
Definition header_text_of (kv : bytes * bytes) : bytes := kv.1 ++ str ": " ++ kv.2.

(** A request with the given headers in place of its own. *)
Definition with_headers (h : Headers) (r : HttpRequest) : HttpRequest :=
  mkRequest (req_method r) (req_uri r) (req_version r) h (req_body r).

(** The sum of the byte counts in the answers of the kernel. *)
Fixpoint bytes_taken (kernel : list SysResult) : Z :=
  match kernel with
  | [] => 0
  | sys_ok n :: kernel' => (n + bytes_taken kernel')%Z
  | sys_err _ :: kernel' => bytes_taken kernel'
  end.

(** An answer of a kernel that is only ever short or busy: some bytes taken,
    or would-block. *)
Definition benign (a : SysResult) : Prop :=
  match a with
  | sys_ok n => (0 ≤ n)%Z
  | sys_err errno => errno = EAGAIN ∨ errno = EWOULDBLOCK
  end.

(** A header that survives the trip: a non-empty name without colon, no
    carriage return anywhere, no value starting with a space. *)
Definition plain_header (kv : bytes * bytes) : Prop :=
  (kv.1 ≠ []) ∧ (":"%char ∉ kv.1) ∧ (CR ∉ kv.1) ∧ (CR ∉ kv.2) ∧ (head kv.2 ≠ Some " "%char).

(** A document root that holds a file without an extension. *)
Definition readme_fs : FileSystem :=
  tree_fs [ ("/", Dir); ("/srv", Dir); ("/srv/www", Dir);
            ("/srv/www/README", File (str "read me") true) ]%string.

(** The static response for the 200000-byte file of [big_fs]. *)
Definition big_response : HttpResponse :=
  mkResponse status.OK true (str "HTTP/1.1")
    [(str "Content-Type", str "text/html"); (str "Content-Length", str "200000");
     (str "File-Path", str "/srv/www/big.html")] [].



(** A request for a file that the document root does not hold, as bytes and
    as [parse] reads them. *)
Definition get_missing_request : bytes :=
  request_bytes (str "GET /missing.html HTTP/1.1") [str "Host: x"] [].

Definition get_missing : HttpRequest :=
  mkRequest (str "GET") (str "/missing.html") (str "HTTP/1.1") [(str "Host", str "x")] [].

(** A form submission without a Connection header, as bytes and as [parse]
    reads them. *)
Definition form_submission_bytes : bytes :=
  request_bytes (str "POST /submit HTTP/1.1")
    [str "Content-Type: application/x-www-form-urlencoded"; str "Content-Length: 8"]
    (str "name=ada").


(** A form submission whose second pair has no [=], and the response it
    gets when the newest key is visited first. *)
Definition bare_pair_post : HttpRequest :=
  mkRequest (str "POST") (str "/submit") (str "HTTP/1.1")
    [(str "Content-Type", mime.toString mime.APP_FORM)] (str "name=ada&foo").

Definition bare_pair_response : HttpResponse :=
  mkResponse status.OK false (str "HTTP/1.1")
    [(str "Content-Type", str "text/html"); (str "Content-Length", str "52");
     (str "Connection", str "close")]
    (str "Received form data:" ++ CRLF ++ str ": " ++ CRLF ++ str "name: ada" ++ CRLF
       ++ str "POST Successful!").
(** ** Facts about searching *)

Lemma is_prefix_app (needle rest : bytes) : is_prefix needle (needle ++ rest) = true.
Proof.
  induction needle as [|a needle IH]; simpl; [done|].
  rewrite bool_decide_eq_true_2 by done. exact IH.
Qed.

Lemma is_prefix_spec (needle hay : bytes) :
  is_prefix needle hay = true ↔ ∃ rest, hay = needle ++ rest.
Proof.
  split.
  - revert hay. induction needle as [|a needle IH]; intros hay H.
    + by exists hay.
    + destruct hay as [|b hay]; simpl in H; [done|].
      apply andb_prop in H as [Hab Hp]. apply bool_decide_eq_true_1 in Hab.
      destruct (IH _ Hp) as [rest ->]. exists rest. by subst.
  - intros [rest ->]. apply is_prefix_app.
Qed.

Lemma is_prefix_head_ne (c a : ascii) (needle hay : bytes) :
  a ≠ c → is_prefix (c :: needle) (a :: hay) = false.
Proof. intros Hne. simpl. rewrite bool_decide_eq_false_2; [done|congruence]. Qed.

(** A stretch of bytes that never shows the needle's first byte is skipped. *)
Lemma find0_skip (c : ascii) (needle l rest : bytes) :
  c ∉ l →
  find0 (c :: needle) (l ++ rest) = (λ i, length l + i) <$> find0 (c :: needle) rest.
Proof.
  induction l as [|a l IH]; intros Hnot.
  - simpl app. by destruct (find0 (c :: needle) rest).
  - apply not_elem_of_cons in Hnot as [Hne Hl].
    change ((a :: l) ++ rest) with (a :: (l ++ rest)).
    cbn [find0]. rewrite is_prefix_head_ne by done.
    rewrite (IH Hl). by destruct (find0 (c :: needle) rest).
Qed.

Lemma find0_here (needle rest : bytes) : find0 needle (needle ++ rest) = Some 0.
Proof. destruct needle; simpl; [by destruct rest|].
  rewrite bool_decide_eq_true_2 by done. by rewrite is_prefix_app. Qed.

Lemma find0_none_notin (c : ascii) (l : bytes) : c ∉ l → find0 [c] l = None.
Proof.
  induction l as [|a l IH]; intros Hnot; [done|].
  apply not_elem_of_cons in Hnot as [Hne Hl].
  cbn [find0]. rewrite is_prefix_head_ne by done. by rewrite (IH Hl).
Qed.

Lemma find0_none_first_notin (c : ascii) (needle l : bytes) :
  c ∉ l → find0 (c :: needle) l = None.
Proof.
  induction l as [|a l IH]; intros Hnot; [done|].
  apply not_elem_of_cons in Hnot as [Hne Hl].
  cbn [find0]. rewrite is_prefix_head_ne by done. by rewrite (IH Hl).
Qed.

Lemma find0_zero_prefix (needle hay : bytes) :
  find0 needle hay = Some 0 ↔ is_prefix needle hay = true.
Proof.
  destruct hay as [|b hay]; cbn [find0]; destruct (is_prefix needle _) eqn:E.
  - done.
  - split; intros; discriminate.
  - done.
  - split; [|discriminate]. destruct (find0 needle hay); simpl; discriminate.
Qed.

(** ** Facts about request layout *)

Lemma find_zero (hay needle : bytes) : find hay needle 0 = find0 needle hay.
Proof.
  unfold find. rewrite decide_True by lia. rewrite drop_0.
  by destruct (find0 needle hay).
Qed.

Lemma find_app_offset (pre rest needle : bytes) :
  find (pre ++ rest) needle (length pre) = (λ i, length pre + i) <$> find0 needle rest.
Proof.
  unfold find. rewrite decide_True by (rewrite length_app; lia).
  by rewrite drop_app_length.
Qed.

Lemma find0_cons_miss (needle hay : bytes) (b : ascii) :
  is_prefix needle (b :: hay) = false →
  find0 needle (b :: hay) = S <$> find0 needle hay.
Proof. intros H. cbn [find0]. by rewrite H. Qed.

Lemma find0_CRLF_line (l rest : bytes) :
  CR ∉ l → find0 CRLF (l ++ CRLF ++ rest) = Some (length l).
Proof.
  intros Hl. unfold CRLF. rewrite (find0_skip CR [LF] l _ Hl).
  rewrite (find0_here [CR; LF] rest). simpl. f_equal. lia.
Qed.

Lemma join_lines_cons (l : bytes) (ls : list bytes) :
  join_lines (l :: ls) = l ++ match ls with [] => [] | _ => CRLF ++ join_lines ls end.
Proof. destruct ls; simpl; [by rewrite app_nil_r|done]. Qed.

Lemma find0_headers_end (lines : list bytes) (body : bytes) :
  Forall header_text lines →
  find0 CRLFCRLF (join_lines lines ++ CRLFCRLF ++ body) = Some (length (join_lines lines)).
Proof.
  induction lines as [|l ls IH]; intros Hall.
  - simpl join_lines. simpl app at 1. apply (find0_here CRLFCRLF body).
  - apply Forall_cons in Hall as [[Hne Hcr] Hls].
    rewrite join_lines_cons. destruct ls as [|l2 ls].
    + rewrite app_nil_r. unfold CRLFCRLF.
      rewrite (find0_skip CR [LF; CR; LF] l _ Hcr).
      rewrite (find0_here [CR; LF; CR; LF] body). simpl. f_equal. lia.
    + specialize (IH Hls). rewrite <- !app_assoc.
      apply Forall_cons in Hls as [[Hne2 Hcr2] _].
      rewrite join_lines_cons in IH |- *.
      destruct l2 as [|a l2]; [done|].
      apply not_elem_of_cons in Hcr2 as [Ha _].
      rewrite <- !app_assoc in IH |- *.
      unfold CRLFCRLF, CRLF in IH |- *.
      rewrite (find0_skip CR [LF; CR; LF] l _ Hcr).
      change ([CR; LF] ++ (a :: l2) ++ ?x) with (CR :: LF :: a :: (l2 ++ x)).
      change ((a :: l2) ++ ?x) with (a :: (l2 ++ x)) in IH.
      rewrite find0_cons_miss.
      2:{ apply not_true_iff_false. intros [rest H]%is_prefix_spec.
          simpl in H. congruence. }
      rewrite find0_cons_miss.
      2:{ apply not_true_iff_false. intros [rest H]%is_prefix_spec.
          simpl in H. discriminate. }
      rewrite IH. simpl. f_equal.
      rewrite !length_app. simpl. rewrite ?length_app. lia.
Qed.

Lemma parseHeaders_loop_unfold (fuel : nat) (block : bytes) (pos : nat) (r : HttpRequest) :
  parseHeaders_loop (S fuel) block pos r =
    if decide (pos < length block) then
      let end_ := default (length block) (find block CRLF pos) in
      let header := substr block pos (end_ - pos) in
      let pos' := if decide (end_ = length block) then end_ else end_ + 2 in
      parseHeaders_loop fuel block pos' (parseHeaderLine header r)
    else r.
Proof. reflexivity. Qed.

Lemma parseHeaders_loop_done (fuel : nat) (block : bytes) (r : HttpRequest) :
  parseHeaders_loop fuel block (length block) r = r.
Proof.
  destruct fuel; [done|]. rewrite parseHeaders_loop_unfold.
  by rewrite decide_False by lia.
Qed.

Lemma parseHeaderLine_empty (r : HttpRequest) : parseHeaderLine [] r = r.
Proof. done. Qed.

(** On a block of CR-free lines the loop visits the lines one by one. *)
Lemma parseHeaders_loop_lines (lines : list bytes) :
  Forall (λ l, CR ∉ l) lines →
  ∀ (pre : bytes) (fuel : nat) (r : HttpRequest),
    length (join_lines lines) ≤ fuel →
    parseHeaders_loop fuel (pre ++ join_lines lines) (length pre) r
    = foldl (λ r l, parseHeaderLine l r) r lines.
Proof.
  induction lines as [|l ls IH]; intros Hall pre fuel r Hfuel.
  - simpl. rewrite app_nil_r. apply parseHeaders_loop_done.
  - apply Forall_cons in Hall as [Hcr Hls].
    rewrite join_lines_cons in Hfuel |- *. destruct ls as [|l2 ls].
    + rewrite app_nil_r in Hfuel |- *. simpl foldl.
      destruct l as [|a l].
      { rewrite app_nil_r. rewrite parseHeaders_loop_done. done. }
      destruct fuel as [|fuel]; [simpl in Hfuel; lia|].
      rewrite parseHeaders_loop_unfold.
      rewrite decide_True by (rewrite length_app; simpl; lia).
      rewrite find_app_offset.
      unfold CRLF. rewrite (find0_none_first_notin CR [LF] _ Hcr). simpl default.
      cbv zeta. rewrite decide_True by done.
      unfold substr. rewrite drop_app_length.
      replace (length (pre ++ a :: l) - length pre) with (length (a :: l))
        by (rewrite length_app; lia).
      rewrite firstn_all. apply parseHeaders_loop_done.
    + destruct fuel as [|fuel].
      { rewrite length_app in Hfuel. simpl in Hfuel. lia. }
      rewrite parseHeaders_loop_unfold.
      rewrite decide_True by (rewrite !length_app; simpl; lia).
      rewrite find_app_offset.
      rewrite (find0_CRLF_line l _ Hcr). simpl default. cbv zeta.
      rewrite decide_False by (rewrite !length_app; simpl; lia).
      unfold substr. rewrite drop_app_length.
      replace (length pre + length l - length pre) with (length l) by lia.
      rewrite take_app_length.
      replace (pre ++ l ++ CRLF ++ join_lines (l2 :: ls))
        with ((pre ++ l ++ CRLF) ++ join_lines (l2 :: ls))
        by (by rewrite <- !app_assoc).
      replace (length pre + length l + 2) with (length (pre ++ l ++ CRLF))
        by (rewrite !length_app; simpl; lia).
      rewrite (IH Hls); [done|].
      rewrite !length_app in Hfuel. change (length CRLF) with 2 in Hfuel. lia.
Qed.

Lemma parseHeaders_lines (lines : list bytes) (r : HttpRequest) :
  Forall (λ l, CR ∉ l) lines →
  parseHeaders (join_lines lines) r = foldl (λ r l, parseHeaderLine l r) r lines.
Proof.
  intros Hall. unfold parseHeaders.
  apply (parseHeaders_loop_lines lines Hall [] _ r). done.
Qed.

Lemma parseHeaderLine_no_separator (header : bytes) (r : HttpRequest) :
  ":"%char ∉ header → parseHeaderLine header r = r.
Proof.
  intros Hnot. unfold parseHeaderLine. case_bool_decide; [done|].
  rewrite find_zero. change (str ":") with [":"%char].
  by rewrite find0_none_notin.
Qed.

Lemma parseBody_suffix (pre body : bytes) (r : HttpRequest) :
  parseBody (pre ++ body) (length pre) r = parseBody body 0 r.
Proof.
  unfold parseBody, substr. rewrite drop_app_length, drop_0.
  rewrite length_app.
  replace (length pre + length body - length pre) with (length body) by lia.
  replace (length body - 0) with (length body) by lia.
  destruct (decide (length pre < length pre + length body)),
           (decide (0 < length body)); try lia; done.
Qed.

(** How [parse] reads a request laid out as start line, header lines, blank
    line and body. *)
Lemma parse_request_bytes (startLine : bytes) (lines : list bytes) (body : bytes) :
  CR ∉ startLine →
  Forall header_text lines →
  parse (request_bytes startLine lines body) =
    match parseStartLine startLine new_request with
    | None => inl InvalidStartLine
    | Some r1 =>
        match parseBody body 0 (foldl (λ r l, parseHeaderLine l r) r1 lines) with
        | inl why => inl (InvalidBody why)
        | inr r3 => inr r3
        end
    end.
Proof.
  intros Hsl Hlines. unfold parse, request_bytes.
  rewrite find_zero, (find0_CRLF_line _ _ Hsl).
  unfold substr at 1. rewrite drop_0, take_app_length.
  destruct (parseStartLine startLine new_request) as [r1|]; [|done].
  cbv zeta.
  replace (startLine ++ CRLF ++ join_lines lines ++ CRLFCRLF ++ body)
    with ((startLine ++ CRLF) ++ join_lines lines ++ CRLFCRLF ++ body)
    by (by rewrite <- !app_assoc).
  replace (length startLine + 2) with (length (startLine ++ CRLF))
    by (rewrite length_app; simpl; lia).
  rewrite find_app_offset, (find0_headers_end _ _ Hlines). simpl fmap.
  unfold substr at 1. rewrite drop_app_length.
  replace (length (startLine ++ CRLF) + length (join_lines lines) - length (startLine ++ CRLF))
    with (length (join_lines lines)) by lia.
  rewrite take_app_length.
  rewrite parseHeaders_lines.
  2:{ eapply Forall_impl; [exact Hlines|]. by intros l [_ H]. }
  replace ((startLine ++ CRLF) ++ join_lines lines ++ CRLFCRLF ++ body)
    with (((startLine ++ CRLF) ++ join_lines lines ++ CRLFCRLF) ++ body)
    by (by rewrite <- !app_assoc).
  replace (length (startLine ++ CRLF) + length (join_lines lines) + 4)
    with (length ((startLine ++ CRLF) ++ join_lines lines ++ CRLFCRLF))
    by (rewrite !length_app; simpl; lia).
  by rewrite parseBody_suffix.
Qed.

(** ** The request parser *)

(** C10.  A header line without a [:] separator is skipped, and it is never
    by itself a parse failure.  [parseHeaders] records nothing for it, and a
    request that carries such a line among its header lines parses whenever
    the rest is well formed, that is, whenever the start line is accepted
    and the body is accepted under the headers of the other lines; the
    result is the request that the same bytes without the line give.  Lines
    are the non-empty, CR-free pieces between the CRLF terminators. *)
Theorem malformed_header_line_is_skipped
    (startLine : bytes) (pre post : list bytes) (bad body : bytes) (r1 r3 : HttpRequest) :
  CR ∉ startLine →
  Forall header_text (pre ++ bad :: post) →
  ":"%char ∉ bad →
  parseStartLine startLine new_request = Some r1 →
  parseBody body 0 (parseHeaders (join_lines (pre ++ post)) r1) = inr r3 →
  parse (request_bytes startLine (pre ++ bad :: post) body) = inr r3 ∧
  parse (request_bytes startLine (pre ++ post) body) = inr r3 ∧
  (∀ r, parseHeaderLine bad r = r) ∧
  parseHeaders (join_lines (pre ++ bad :: post)) r1 = parseHeaders (join_lines (pre ++ post)) r1.
Proof.
  intros Hsl Hall Hbad Hstart Hbody.
  assert (Forall header_text (pre ++ post)) as Hrest.
  { apply Forall_app in Hall as [Hpre Hpost].
    apply Forall_cons in Hpost as [_ Hpost]. by apply Forall_app. }
  assert (∀ ls, Forall header_text ls → Forall (λ l, CR ∉ l) ls) as Hcr.
  { intros ls Hls. eapply Forall_impl; [exact Hls|]. by intros l [_ H]. }
  assert (parseHeaders (join_lines (pre ++ bad :: post)) r1
          = parseHeaders (join_lines (pre ++ post)) r1) as Hsame.
  { rewrite !parseHeaders_lines by auto.
    rewrite !foldl_app. cbn [foldl].
    by rewrite (parseHeaderLine_no_separator bad _ Hbad). }
  assert (parse (request_bytes startLine (pre ++ post) body) = inr r3) as Hwithout.
  { rewrite parse_request_bytes by done. rewrite Hstart.
    rewrite <- parseHeaders_lines by auto. by rewrite Hbody. }
  split; [|split; [done|split; [|done]]].
  - rewrite parse_request_bytes by done. rewrite Hstart.
    rewrite <- parseHeaders_lines by auto. by rewrite Hsame, Hbody.
  - intros r. by apply parseHeaderLine_no_separator.
Qed.

(** C10 at a request with the line [garbage] between two headers. *)
Lemma malformed_header_line_is_skipped_witness :
  parse (request_bytes (str "GET / HTTP/1.1")
           ([str "Host: x"] ++ str "garbage" :: [str "Accept: text/html"]) [])
  = inr (mkRequest (str "GET") (str "/") (str "HTTP/1.1")
           [(str "Host", str "x"); (str "Accept", str "text/html")] []) ∧
  parse (request_bytes (str "GET / HTTP/1.1")
           ([str "Host: x"] ++ [str "Accept: text/html"]) [])
  = inr (mkRequest (str "GET") (str "/") (str "HTTP/1.1")
           [(str "Host", str "x"); (str "Accept", str "text/html")] []) ∧
  (∀ r, parseHeaderLine (str "garbage") r = r) ∧
  parseHeaders (join_lines ([str "Host: x"] ++ str "garbage" :: [str "Accept: text/html"]))
    (mkRequest (str "GET") (str "/") (str "HTTP/1.1") [] [])
  = parseHeaders (join_lines ([str "Host: x"] ++ [str "Accept: text/html"]))
      (mkRequest (str "GET") (str "/") (str "HTTP/1.1") [] []).
Proof.
  apply (malformed_header_line_is_skipped (str "GET / HTTP/1.1")
           [str "Host: x"] [str "Accept: text/html"] (str "garbage") []
           (mkRequest (str "GET") (str "/") (str "HTTP/1.1") [] [])
           (mkRequest (str "GET") (str "/") (str "HTTP/1.1")
              [(str "Host", str "x"); (str "Accept", str "text/html")] [])).
  - compute_done.
  - repeat constructor; compute_done.
  - compute_done.
  - vm_compute. reflexivity.
  - vm_compute. reflexivity.
Defined.

(** The unconditional form: with or without the line the parse has the same
    outcome, a failure included. *)
Lemma malformed_header_line_same_outcome
    (startLine : bytes) (pre post : list bytes) (bad body : bytes) :
  CR ∉ startLine →
  Forall header_text (pre ++ bad :: post) →
  ":"%char ∉ bad →
  parse (request_bytes startLine (pre ++ bad :: post) body)
  = parse (request_bytes startLine (pre ++ post) body).
Proof.
  intros Hsl Hall Hbad.
  assert (Forall header_text (pre ++ post)) as Hrest.
  { apply Forall_app in Hall as [Hpre Hpost].
    apply Forall_cons in Hpost as [_ Hpost]. by apply Forall_app. }
  rewrite !parse_request_bytes by done.
  destruct (parseStartLine startLine new_request) as [r1|]; [|done].
  rewrite !foldl_app. cbn [foldl].
  by rewrite (parseHeaderLine_no_separator bad _ Hbad).
Qed.

(** A request with a skipped line still parses, with the other headers. *)
Example request_with_malformed_line_parses :
  parse (request_bytes (str "GET / HTTP/1.1")
           [str "Host: x"; str "garbage"; str "Accept: text/html"] [])
  = inr (mkRequest (str "GET") (str "/") (str "HTTP/1.1")
           [(str "Host", str "x"); (str "Accept", str "text/html")] []).
Proof. vm_compute. reflexivity. Qed.

(** C3, as the code has it.  A request whose start line has its two spaces
    and its CRLF but whose method token is not a known method is a parse
    failure: [parseStartLine] rejects the sentinel, [parse] returns [false]
    and [parseRequest] raises, so no request with method INVALID is surfaced
    and the registry path that answers 501 is not entered. *)
Theorem unknown_method_is_parse_failure
    (rawData : bytes) (startLineEnd methodEnd uriEnd : nat) :
  find rawData CRLF 0 = Some startLineEnd →
  find (substr rawData 0 startLineEnd) (str " ") 0 = Some methodEnd →
  find (substr rawData 0 startLineEnd) (str " ") (methodEnd + 1) = Some uriEnd →
  method.fromString (substr (substr rawData 0 startLineEnd) 0 methodEnd) = method.INVALID →
  parse rawData = inl InvalidStartLine ∧
  parseRequest (recv_data rawData) = inl other_exception.
Proof.
  intros Hend Hm Hu Hinv.
  assert (parse rawData = inl InvalidStartLine) as Hparse.
  { unfold parse. rewrite Hend. unfold parseStartLine. rewrite Hm, Hu.
    cbv zeta. by rewrite Hinv. }
  split; [done|]. unfold parseRequest. by rewrite Hparse.
Qed.

(** C3, as the code has it, at [BREW /index.html HTTP/1.1]. *)
Lemma unknown_method_is_parse_failure_witness :
  parse brew_request = inl InvalidStartLine ∧
  parseRequest (recv_data brew_request) = inl other_exception.
Proof.
  apply (unknown_method_is_parse_failure brew_request 25 4 16);
    vm_compute; reflexivity.
Defined.

(** C3 as stated fails on [BREW /index.html HTTP/1.1]: the start line is
    well formed and the same request with GET parses, yet the parse is
    reported as failed, and what the handler sends is not the 501 response. *)
Lemma unknown_method_counterexample :
  find brew_request CRLF 0 = Some 25 ∧
  find (substr brew_request 0 25) (str " ") 0 = Some 4 ∧
  find (substr brew_request 0 25) (str " ") 5 = Some 16 ∧
  method.fromString (substr brew_request 0 4) = method.INVALID ∧
  parse get_index_request
    = inr (mkRequest (str "GET") (str "/index.html") (str "HTTP/1.1") [(str "Host", str "x")] []) ∧
  parse brew_request = inl InvalidStartLine ∧
  (handleRequest newest_first site_fs site_cfg (recv_data brew_request) []).2
    = str "500 Internal Server Error".
Proof.
  split; [vm_compute; reflexivity|].
  split; [vm_compute; reflexivity|].
  split; [vm_compute; reflexivity|].
  split; [vm_compute; reflexivity|].
  split; [vm_compute; reflexivity|].
  split; vm_compute; reflexivity.
Qed.

(** Where body bytes are present, [parseBody] honours [Content-Length]: it
    either reports an incomplete body or stores exactly that many bytes. *)
Lemma parseBody_content_length
    (rawData : bytes) (bodyStart : nat) (r : HttpRequest) (v : bytes) (n : Z) :
  bodyStart < length rawData →
  req_getHeader r (str "Content-Length") = Some v →
  stoul v = stoul_value n →
  (0 ≤ n)%Z →
  ((Z.of_nat (length rawData - bodyStart) < n)%Z ∧
     parseBody rawData bodyStart r = inl IncompleteBody) ∨
  (∃ r', parseBody rawData bodyStart r = inr r' ∧ Z.of_nat (length (req_body r')) = n).
Proof.
  intros Hlt Hh Hs Hn. unfold parseBody.
  rewrite decide_True by done. rewrite Hh, Hs.
  destruct (decide (n ≤ Z.of_nat (length rawData - bodyStart))%Z) as [Hle|Hgt].
  - right. eexists. split; [done|]. simpl. unfold substr.
    rewrite length_take, length_drop. lia.
  - left. split; [lia|done].
Qed.

(** C4, the failing input.  With [Content-Length: 5] and no byte after the
    blank line the parse succeeds and leaves an empty body, while the same
    header with three body bytes is reported as an incomplete body. *)
Theorem content_length_without_body_is_accepted :
  parse bodyless_post
    = inr (mkRequest (str "POST") (str "/submit") (str "HTTP/1.1")
             [(str "Content-Type", str "application/x-www-form-urlencoded");
              (str "Content-Length", str "5")] []) ∧
  stoul (str "5") = stoul_value 5 ∧
  parse (bodyless_post ++ str "abc") = inl (InvalidBody IncompleteBody).
Proof.
  split; [vm_compute; reflexivity|].
  split; vm_compute; reflexivity.
Qed.

(** ** The keep-alive loop *)

Lemma processRequests_loop_bounded {Conn : Type}
    (waitForData : Conn → Waited * Conn) (handleRequest_on : Conn → bool * Conn)
    (fuel cycles : nat) (c : Conn) :
  cycles + fuel ≥ 100 → cycles < 100 →
  ∃ n c', processRequests_loop waitForData handleRequest_on fuel (Z.of_nat cycles) cycles c
          = Some (n, c') ∧ cycles ≤ n ≤ 100.
Proof.
  revert cycles c. induction fuel as [|fuel IH]; intros cycles c Hfuel Hlt; [lia|].
  cbn [processRequests_loop].
  destruct (waitForData c) as [[] c1]; try (eexists _, _; split; [done|lia]).
  destruct (handleRequest_on c1) as [keepAlive c2].
  case_bool_decide as Hmax.
  - eexists _, _. split; [done|]. lia.
  - unfold MAX_KEEP_ALIVE_REQUESTS in Hmax.
    destruct keepAlive; simpl.
    + replace (Z.of_nat cycles + 1)%Z with (Z.of_nat (S cycles)) by lia.
      destruct (IH (S cycles) c2) as (n & c' & Hrun & Hn); [lia..|].
      exists n, c'. split; [done|lia].
    + eexists _, _. split; [done|lia].
Qed.

(** C8.  Whatever the peer and the clock do, [processRequests] returns, and
    it has completed at most 100 request/response cycles when it does. *)
Theorem keep_alive_cap {Conn : Type}
    (waitForData : Conn → Waited * Conn) (handleRequest_on : Conn → bool * Conn)
    (extra : nat) (c : Conn) :
  ∃ cycles c', processRequests waitForData handleRequest_on (100 + extra) c = Some (cycles, c')
               ∧ cycles ≤ 100.
Proof.
  destruct (processRequests_loop_bounded waitForData handleRequest_on (100 + extra) 0 c)
    as (n & c' & Hrun & Hn); [lia..|].
  exists n, c'. split; [exact Hrun|lia].
Qed.

(** The cap is reached by a peer that always has a next request ready. *)
Example keep_alive_cap_reached :
  processRequests (λ c : nat, (data_ready, c)) (λ c, (true, S c)) 100 0 = Some (100, 100).
Proof. vm_compute. reflexivity. Qed.

(** ** [Socket::send] *)

Lemma send_loop_never_throws (kernel : list SysResult) (len totalSent : Z) (o : SocketOutcome) :
  send_loop kernel len totalSent = Some o → ∃ v, o = returned v.
Proof.
  revert totalSent. induction kernel as [|a kernel IH]; intros totalSent H.
  - simpl in H. case_bool_decide; [done|]. injection H as <-. by eexists.
  - cbn [send_loop] in H. case_bool_decide.
    + destruct a as [n|errno]; [by eapply IH|].
      case_bool_decide; by eapply IH.
    + injection H as <-. by eexists.
Qed.

Lemma to_size_t_small (z : Z) : (0 ≤ z < 2 ^ 64)%Z → to_size_t z = z.
Proof. intros H. unfold to_size_t. by apply Z.mod_small. Qed.

Lemma to_ssize_t_small (z : Z) : (0 ≤ z < 2 ^ 63)%Z → to_ssize_t z = z.
Proof.
  intros H. unfold to_ssize_t.
  assert (2 ^ 63 < 2 ^ 64)%Z as Hpow by reflexivity.
  rewrite Z.mod_small by lia. by rewrite bool_decide_eq_true_2 by lia.
Qed.

(** Would-block answers are retried until the kernel has taken the bytes. *)
Lemma Socket_send_retries_would_block (k : nat) (len : Z) :
  (0 ≤ len < 2 ^ 63)%Z →
  Socket_send (replicate k (sys_err EAGAIN) ++ [sys_ok len]) len = Some (returned len).
Proof.
  intros Hlen. unfold Socket_send.
  assert (2 ^ 63 < 2 ^ 64)%Z as Hpow by reflexivity.
  destruct (decide (len = 0%Z)) as [->|Hpos].
  { by destruct k. }
  induction k as [|k IH].
  - cbn [replicate app send_loop]. rewrite bool_decide_eq_true_2 by lia.
    rewrite Z.add_0_l, to_size_t_small by lia.
    rewrite bool_decide_eq_false_2 by lia.
    by rewrite to_ssize_t_small.
  - cbn [replicate app send_loop]. rewrite bool_decide_eq_true_2 by lia.
    rewrite bool_decide_eq_true_2 by (by left). exact IH.
Qed.

(** C9, the failing inputs.  [Socket::send] never raises.  A connection
    reset on the first call comes back as the plain value -1; a broken pipe
    after five bytes is absorbed, the loop resumes one byte earlier (offset
    4) and the call reports all ten bytes as written.  [Socket::recv] raises
    with the OS code in the same situation. *)
Theorem Socket_send_swallows_failures :
  Socket_send [sys_err ECONNRESET] 10 = Some (returned (-1)) ∧
  Socket_send [sys_ok 5; sys_err EPIPE; sys_ok 6] 10 = Some (returned 10) ∧
  send_offsets [sys_ok 5; sys_err EPIPE; sys_ok 6] 10 0 = [0; 5; 4]%Z ∧
  Socket_recv (sys_err ECONNRESET) = threw ECONNRESET ∧
  (∀ kernel len o, Socket_send kernel len = Some o → ∃ v, o = returned v).
Proof.
  split; [vm_compute; reflexivity|].
  split; [vm_compute; reflexivity|].
  split; [vm_compute; reflexivity|].
  split; [vm_compute; reflexivity|].
  intros kernel len o. apply send_loop_never_throws.
Qed.

(** ** The response composer and the error path *)

Lemma sendErrorResponse_wire (response : HttpResponse) (code : status.Code) (wire : bytes) :
  sendErrorResponse response code wire
  = wire ++ status.getCode code ++ str " " ++ status.toString code.
Proof. reflexivity. Qed.

(** C2, the failing path.  For every status code, [sendErrorResponse] puts
    the bare text [<code> <reason>] on the wire: no status line, no header,
    no blank line.  This is what a peer sees after a request that fails to
    parse. *)
Theorem sendErrorResponse_sends_body_only (visit : Traversal) (code : status.Code) :
  sendErrorResponse new_response code []
  = status.getCode code ++ str " " ++ status.toString code ∧
  is_prefix (str "HTTP/1.1") (sendErrorResponse new_response code []) = false ∧
  find (sendErrorResponse new_response code []) CRLF 0 = None ∧
  (handleRequest visit site_fs site_cfg (recv_data (str "nonsense")) []).2
  = str "500 Internal Server Error".
Proof.
  split; [reflexivity|].
  split; [by destruct code; vm_compute|].
  split; [by destruct code; vm_compute|].
  vm_compute. reflexivity.
Qed.

(** On the other path, where a builder reports the status, the same response
    object goes through [sendResponse] and is sent in full. *)
Example builder_error_is_sent_in_full (visit : Traversal) :
  (handleRequest visit site_fs site_cfg
     (recv_data (request_bytes (str "GET /missing.html HTTP/1.1") [str "Host: x"] [])) []).2
  = str "HTTP/1.1 404 Not Found" ++ CRLF
    ++ str "Content-Type: text/html" ++ CRLF
    ++ str "Content-Length: 13" ++ CRLF
    ++ str "Connection: close" ++ CRLF ++ CRLF
    ++ str "404 Not Found".
Proof. vm_compute. reflexivity. Qed.

(** ** The URI resolver *)

(** What the check [fullPath.find(root) != 0] does guarantee: the root is a
    textual prefix of every path the resolver returns. *)
Lemma sanitizePath_textual_prefix (fs : FileSystem) (cfg : Config) (uri path : bytes) :
  sanitizePath fs cfg uri = inl path →
  ∃ root, realpath fs (rootFolder cfg) = Some root ∧ is_prefix root path = true.
Proof.
  unfold sanitizePath. intros H.
  destruct (realpath fs (rootFolder cfg)) as [root|]; [|done].
  exists root. split; [done|].
  destruct (realpath fs _) as [fullPath|]; [|done].
  case_bool_decide as Hfind; [done|].
  destruct (stat fs fullPath) as [st|]; [|done].
  destruct (st_isreg st); [|done]. simpl in H. injection H as <-.
  apply find0_zero_prefix. rewrite <- find_zero.
  by destruct (decide (find fullPath root 0 = Some 0)).
Qed.

(** C1, the failing input.  With the document root [/srv/www] beside a
    directory [/srv/www-private], the URI [/../www-private/notes.html] is
    resolved to a file outside the root: the canonical target starts with the
    text of the root, but not at a directory boundary, and is returned
    instead of 403. *)
Theorem sanitizePath_escapes_to_sibling :
  realpath site_fs (rootFolder site_cfg) = Some (str "/srv/www") ∧
  realpath site_fs (str "/srv/www/../www-private/notes.html")
    = Some (str "/srv/www-private/notes.html") ∧
  sanitizePath site_fs site_cfg (str "/../www-private/notes.html")
    = inl (str "/srv/www-private/notes.html") ∧
  ¬ under_root (str "/srv/www") (str "/srv/www-private/notes.html").
Proof.
  repeat split; try (vm_compute; reflexivity).
  intros [H|[rest H]]; vm_compute in H; discriminate.
Qed.

(** A target that leaves the text of the root behind is refused. *)
Example sanitizePath_refuses_parent :
  sanitizePath site_fs site_cfg (str "/../index.html") = inr status.NOT_FOUND ∧
  sanitizePath site_fs site_cfg (str "/..") = inr status.FORBIDDEN.
Proof. split; vm_compute; reflexivity. Qed.

(** ** Headers *)

Lemma getHeader_lower (h : Headers) (k k' : bytes) :
  toLower k = toLower k' → getHeader h k = getHeader h k'.
Proof.
  intros Hk. induction h as [|[a v] h IH]; [done|].
  cbn [getHeader]. by rewrite Hk, IH.
Qed.

Lemma getHeader_app_one (h : Headers) (k v k' : bytes) :
  getHeader (h ++ [(k, v)]) k' =
    match getHeader h k' with
    | Some x => Some x
    | None => if bool_decide (toLower k = toLower k') then Some v else None
    end.
Proof.
  induction h as [|[a w] h IH]; [done|].
  change (((a, w) :: h) ++ [(k, v)]) with ((a, w) :: (h ++ [(k, v)])).
  cbn [getHeader]. destruct (bool_decide (toLower a = toLower k')); [done|exact IH].
Qed.

(** Setting a header keeps an earlier value for the same name. *)
Lemma getHeader_setHeader (h : Headers) (k v k' : bytes) :
  getHeader (setHeader k v h) k' =
    match getHeader h k' with
    | Some x => Some x
    | None => if bool_decide (toLower k = toLower k') then Some v else None
    end.
Proof.
  unfold setHeader. destruct (getHeader h k) as [x|] eqn:Hk.
  - destruct (getHeader h k') as [y|] eqn:Hk'; [done|].
    case_bool_decide as Heq; [|done].
    rewrite (getHeader_lower h k k' Heq) in Hk. congruence.
  - apply getHeader_app_one.
Qed.

Lemma setHeader_fresh (h : Headers) (k v : bytes) :
  getHeader h k = None → setHeader k v h = h ++ [(k, v)].
Proof. intros H. unfold setHeader. by rewrite H. Qed.

Lemma getHeader_setHeader_same (h : Headers) (k v : bytes) :
  getHeader (setHeader k v h) k = Some (default v (getHeader h k)).
Proof.
  rewrite getHeader_setHeader. destruct (getHeader h k); [done|].
  by rewrite bool_decide_eq_true_2.
Qed.

(** ** The builders *)

Lemma sanitizePath_regular (fs : FileSystem) (cfg : Config) (uri path : bytes) :
  sanitizePath fs cfg uri = inl path →
  ∃ st, stat fs path = Some st ∧ st_isreg st = true.
Proof.
  unfold sanitizePath. intros H.
  destruct (realpath fs (rootFolder cfg)) as [root|]; [|done].
  destruct (realpath fs _) as [fullPath|]; [|done].
  case_bool_decide as Hfind; [done|].
  destruct (stat fs fullPath) as [st|] eqn:Hst; [|done].
  destruct (st_isreg st) eqn:Hreg; [|done]. simpl in H. injection H as <-.
  by exists st.
Qed.

(** C7, as the code has it.  For a GET request whose URI resolves to a
    regular file with a known extension the builder answers 200 OK: above
    128 KiB with a static response, an empty body and the headers
    Content-Type, Content-Length (the stat size) and File-Path (the canonical
    path); otherwise, when the file can be read, with a non-static response
    whose body is the file contents and whose Content-Length is their size. *)
Theorem get_builder_serves_file
    (fs : FileSystem) (cfg : Config) (request : HttpRequest)
    (validPath : bytes) (st : Stat) (content : bytes) :
  sanitizePath fs cfg (req_uri request) = inl validPath →
  stat fs validPath = Some st →
  mime.fromExtension (extension_of validPath) ≠ mime.INVALID →
  (0 ≤ st_size st < 2 ^ 63)%Z →
  ((st_size st ≤ MAX_FILE_SIZE)%Z → ifstream_read fs validPath = read_ok content) →
  GetResponseBuilder_buildResponse fs cfg request =
    inl (if bool_decide (MAX_FILE_SIZE < st_size st)%Z then
           mkResponse status.OK true (str "HTTP/1.1")
             [(str "Content-Type", mime.toString (mime.fromExtension (extension_of validPath)));
              (str "Content-Length", to_string (Z.to_N (st_size st)));
              (str "File-Path", validPath)] []
         else
           mkResponse status.OK false (str "HTTP/1.1")
             [(str "Content-Type", mime.toString (mime.fromExtension (extension_of validPath)));
              (str "Content-Length", to_string (N.of_nat (length content)))] content).
Proof.
  intros Hpath Hstat Hmime Hsize Hread.
  destruct (sanitizePath_regular _ _ _ _ Hpath) as (st' & Hst' & Hreg).
  assert (st' = st) as -> by congruence.
  assert (2 ^ 63 < 2 ^ 64)%Z as Hpow by reflexivity.
  unfold GetResponseBuilder_buildResponse. rewrite Hpath, Hstat, Hreg. cbn [negb].
  rewrite (bool_decide_eq_false_2 _ Hmime). cbv zeta.
  rewrite to_size_t_small by lia.
  case_bool_decide as Hbig.
  - reflexivity.
  - unfold readFile. rewrite Hread by lia. reflexivity.
Qed.

(** C7, as the code has it, at the 17-byte index file. *)
Lemma get_builder_serves_file_witness :
  GetResponseBuilder_buildResponse site_fs site_cfg get_root =
    inl (mkResponse status.OK false (str "HTTP/1.1")
           [(str "Content-Type", str "text/html"); (str "Content-Length", str "17")]
           (str "<h1>It works</h1>")).
Proof.
  apply (get_builder_serves_file site_fs site_cfg get_root
           (str "/srv/www/index.html") (mkStat true 17) (str "<h1>It works</h1>")).
  - vm_compute. reflexivity.
  - vm_compute. reflexivity.
  - vm_compute. discriminate.
  - simpl. lia.
  - intros _. vm_compute. reflexivity.
Defined.

(** The static branch on a 200000-byte file. *)
Example get_builder_static_file :
  GetResponseBuilder_buildResponse big_fs site_cfg get_big =
    inl (mkResponse status.OK true (str "HTTP/1.1")
           [(str "Content-Type", str "text/html");
            (str "Content-Length", str "200000");
            (str "File-Path", str "/srv/www/big.html")] []).
Proof. vm_compute. reflexivity. Qed.

(** C7 as stated fails on a file the server may not read: [/locked.html]
    resolves to a regular file with a known extension, below the threshold,
    and the builder answers 403. *)
Lemma get_builder_unreadable_counterexample :
  sanitizePath site_fs site_cfg (req_uri get_locked) = inl (str "/srv/www/locked.html") ∧
  stat site_fs (str "/srv/www/locked.html") = Some (mkStat true 13) ∧
  mime.fromExtension (extension_of (str "/srv/www/locked.html")) = mime.TEXT_HTML ∧
  bool_decide (MAX_FILE_SIZE < 13)%Z = false ∧
  GetResponseBuilder_buildResponse site_fs site_cfg get_locked = inr status.FORBIDDEN.
Proof.
  split; [vm_compute; reflexivity|].
  split; [vm_compute; reflexivity|].
  split; [vm_compute; reflexivity|].
  split; vm_compute; reflexivity.
Qed.

(** ** The form echo *)

Lemma form_pair_no_equals (keyValue : bytes) :
  "="%char ∉ keyValue → form_pair keyValue = ([], []).
Proof.
  intros Hnot. unfold form_pair. rewrite find_zero.
  change (str "=") with ["="%char]. by rewrite find0_none_notin.
Qed.

Lemma form_fold_keeps (pairs : list bytes) (formData : gmap bytes bytes) (key : bytes) :
  is_Some (formData !! key) → is_Some (foldl form_step formData pairs !! key).
Proof.
  revert formData. induction pairs as [|p pairs IH]; intros formData Hin; [done|].
  cbn [foldl]. apply IH. unfold form_step.
  destruct (decide ((form_pair p).1 = key)) as [<-|Hne].
  - rewrite lookup_insert_eq. by eexists.
  - by rewrite lookup_insert_ne.
Qed.

Lemma form_fold_records (pairs : list bytes) (formData : gmap bytes bytes) (keyValue : bytes) :
  keyValue ∈ pairs →
  is_Some (foldl form_step formData pairs !! (form_pair keyValue).1).
Proof.
  revert formData. induction pairs as [|p pairs IH]; intros formData Hin.
  - by apply elem_of_nil in Hin.
  - apply elem_of_cons in Hin as [->|Hin].
    + cbn [foldl]. apply form_fold_keeps. unfold form_step.
      rewrite lookup_insert_eq. by eexists.
    + cbn [foldl]. by apply IH.
Qed.

(** Pairs of a further key are not disturbed by the pairs that follow. *)
Lemma form_fold_other_keys (pairs : list bytes) (formData : gmap bytes bytes) (key : bytes) :
  Forall (λ p, (form_pair p).1 ≠ key) pairs →
  foldl form_step formData pairs !! key = formData !! key.
Proof.
  revert formData. induction pairs as [|p pairs IH]; intros formData Hall; [done|].
  apply Forall_cons in Hall as [Hp Hall]. cbn [foldl].
  rewrite (IH _ Hall). unfold form_step. by rewrite lookup_insert_ne.
Qed.

(** [newest_first] is a traversal as every implementation gives one. *)
Lemma newest_first_visits_each_key_once : visits_each_key_once newest_first.
Proof.
  intros keys. unfold newest_first. split.
  - apply NoDup_remove_dups.
  - intros k. by rewrite elem_of_remove_dups, elem_of_reverse.
Qed.

(** A traversal meets every key once: around it are the other keys. *)
Lemma visit_split (visit : Traversal) (keys : list bytes) (key : bytes) :
  visits_each_key_once visit →
  key ∈ keys →
  ∃ ks1 ks2, visit keys = ks1 ++ key :: ks2 ∧ (key ∉ ks1) ∧ (key ∉ ks2).
Proof.
  intros Hvisit Hin. destruct (Hvisit keys) as [Hnodup Hiff].
  apply Hiff in Hin. apply list_elem_of_split in Hin as (ks1 & ks2 & Hsplit).
  exists ks1, ks2. split; [done|]. rewrite Hsplit in Hnodup.
  apply NoDup_app in Hnodup as (_ & Hdisj & Hnodup).
  apply NoDup_cons in Hnodup as [Hnot _]. split; [|done].
  intros Hin1. apply (Hdisj _ Hin1). by left.
Qed.

Lemma form_echo_split (earlier later : list (bytes * bytes)) (kv : bytes * bytes) :
  form_echo (earlier ++ kv :: later)
  = str "Received form data:" ++ CRLF ++ concat (echo_line <$> earlier)
      ++ echo_line kv ++ concat (echo_line <$> later) ++ str "POST Successful!".
Proof.
  unfold form_echo. rewrite fmap_app, concat_app, fmap_cons. cbn [concat].
  by rewrite <- !app_assoc.
Qed.

(** The echo around the line of a pair without [=]. *)
Lemma echo_of_pair_without_equals
    (visit : Traversal) (body : bytes) (before after : list bytes) (keyValue : bytes) :
  visits_each_key_once visit →
  getlines "&"%char body = before ++ keyValue :: after →
  "="%char ∉ keyValue →
  Forall (λ p, (form_pair p).1 ≠ []) after →
  parse_form body !! [] = Some [] ∧
  ∃ earlier later,
    form_entries visit body = earlier ++ ([], []) :: later ∧
    Forall (λ kv : bytes * bytes, (kv.1) ≠ []) (earlier ++ later) ∧
    form_echo (form_entries visit body)
    = str "Received form data:" ++ CRLF ++ concat (echo_line <$> earlier)
        ++ (str ": " ++ CRLF)
        ++ concat (echo_line <$> later) ++ str "POST Successful!".
Proof.
  intros Hvisit Hsplit Hnot Hafter.
  pose proof (form_pair_no_equals keyValue Hnot) as Hpair.
  assert (parse_form body !! [] = Some []) as Hempty.
  { unfold parse_form. rewrite Hsplit, foldl_app. cbn [foldl].
    rewrite (form_fold_other_keys _ _ _ Hafter). unfold form_step.
    rewrite Hpair. apply lookup_insert_eq. }
  split; [done|].
  assert ([] ∈ form_keys body) as Hkey.
  { unfold form_keys. rewrite Hsplit. apply list_elem_of_fmap.
    exists keyValue. rewrite Hpair. split; [done|].
    apply elem_of_app. right. by left. }
  destruct (visit_split visit _ _ Hvisit Hkey) as (ks1 & ks2 & Hks & Hks1 & Hks2).
  set (entry := λ key : bytes, (key, default [] (parse_form body !! key))).
  assert (form_entries visit body = (entry <$> ks1) ++ ([], []) :: (entry <$> ks2)) as Hentries.
  { unfold form_entries. fold entry. rewrite Hks, fmap_app, fmap_cons.
    unfold entry at 2. by rewrite Hempty. }
  exists (entry <$> ks1), (entry <$> ks2). split; [done|]. split.
  - rewrite <- fmap_app. apply Forall_fmap, Forall_forall.
    intros k Hk. cbn. intros ->. apply elem_of_app in Hk as [Hk|Hk]; done.
  - rewrite Hentries. apply form_echo_split.
Qed.

(** C6, as the code has it.  A pair of the POST body that contains no [=]
    is stored under the empty key with the empty value: the text of the pair
    is dropped.  Unless a later pair has the empty key too (a later [=v]
    puts [v] in its place), the form data holds the empty value under the
    empty key, and the body of the response has exactly one line for the
    empty key, the line [: ] with nothing before the colon and nothing
    after the blank, wherever the traversal of the map puts it among the
    lines of the other keys. *)
Theorem pair_without_equals_has_empty_key
    (visit : Traversal) (request : HttpRequest) (response : HttpResponse)
    (before after : list bytes) (keyValue : bytes) :
  visits_each_key_once visit →
  PostResponseBuilder_buildResponse visit request = inl response →
  getlines "&"%char (req_body request) = before ++ keyValue :: after →
  "="%char ∉ keyValue →
  Forall (λ p, (form_pair p).1 ≠ []) after →
  form_pair keyValue = ([], []) ∧
  parse_form (req_body request) !! [] = Some [] ∧
  ∃ earlier later,
    form_entries visit (req_body request) = earlier ++ ([], []) :: later ∧
    Forall (λ kv : bytes * bytes, (kv.1) ≠ []) (earlier ++ later) ∧
    resp_body response
    = str "Received form data:" ++ CRLF ++ concat (echo_line <$> earlier)
        ++ (str ": " ++ CRLF)
        ++ concat (echo_line <$> later) ++ str "POST Successful!".
Proof.
  intros Hvisit Hbuilt Hsplit Hnot Hafter.
  split; [by apply form_pair_no_equals|].
  destruct (echo_of_pair_without_equals visit _ _ _ _ Hvisit Hsplit Hnot Hafter)
    as (Hempty & earlier & later & Hentries & Hothers & Hecho).
  split; [done|]. exists earlier, later. split; [done|]. split; [done|].
  rewrite <- Hecho. revert Hbuilt. unfold PostResponseBuilder_buildResponse. cbv zeta.
  case_bool_decide; [done|]. case_bool_decide; [done|]. by intros [= <-].
Qed.

(** C6, as the code has it, at the body [name=ada&foo]. *)
Lemma pair_without_equals_has_empty_key_witness :
  form_pair (str "foo") = ([], []) ∧
  parse_form (req_body bare_pair_post) !! [] = Some [] ∧
  ∃ earlier later,
    form_entries newest_first (req_body bare_pair_post) = earlier ++ ([], []) :: later ∧
    Forall (λ kv : bytes * bytes, (kv.1) ≠ []) (earlier ++ later) ∧
    resp_body bare_pair_response
    = str "Received form data:" ++ CRLF ++ concat (echo_line <$> earlier)
        ++ (str ": " ++ CRLF)
        ++ concat (echo_line <$> later) ++ str "POST Successful!".
Proof.
  apply (pair_without_equals_has_empty_key newest_first bare_pair_post bare_pair_response
           [str "name=ada"] [] (str "foo")).
  - exact newest_first_visits_each_key_once.
  - vm_compute. reflexivity.
  - vm_compute. reflexivity.
  - compute_done.
  - constructor.
Defined.

(** The echo of [name=ada&foo] when the newest key is visited first. *)
Example echo_of_name_and_bare_pair :
  form_echo (form_entries newest_first (str "name=ada&foo"))
  = str "Received form data:" ++ CRLF
    ++ str ": " ++ CRLF
    ++ str "name: ada" ++ CRLF
    ++ str "POST Successful!".
Proof. vm_compute. reflexivity. Qed.

(** A later pair [=bar] takes the place of the empty value. *)
Example later_empty_key_overwrites :
  parse_form (str "foo&=bar") !! [] = Some (str "bar") ∧
  form_echo (form_entries newest_first (str "foo&=bar"))
  = str "Received form data:" ++ CRLF ++ str ": bar" ++ CRLF ++ str "POST Successful!".
Proof. split; vm_compute; reflexivity. Qed.

(** C6 as stated fails on the body [foo]: the text [foo] is not a key of the
    form data, the empty key is, and the echo shows an empty name; the pair
    [foo=] is what yields the key [foo] with an empty value. *)
Lemma pair_without_equals_counterexample :
  getlines "&"%char (str "foo") = [str "foo"] ∧
  find (str "foo") (str "=") 0 = None ∧
  form_pair (str "foo") = ([], []) ∧
  parse_form (str "foo") !! str "foo" = None ∧
  parse_form (str "foo") !! [] = Some [] ∧
  form_entries newest_first (str "foo") = [([], [])] ∧
  form_echo (form_entries newest_first (str "foo"))
    = str "Received form data:" ++ CRLF ++ str ": " ++ CRLF ++ str "POST Successful!" ∧
  form_pair (str "foo=") = (str "foo", []).
Proof.
  split; [vm_compute; reflexivity|].
  split; [vm_compute; reflexivity|].
  split; [vm_compute; reflexivity|].
  split; [vm_compute; reflexivity|].
  split; [vm_compute; reflexivity|].
  split; [vm_compute; reflexivity|].
  split; vm_compute; reflexivity.
Qed.

(** ** The Connection header *)

Ltac eval_keys :=
  repeat match goal with
         | |- context [bool_decide (toLower ?a = toLower ?b)] =>
             let r := eval vm_compute in (bool_decide (toLower a = toLower b)) in
             change (bool_decide (toLower a = toLower b)) with r
         end.

Ltac header_lookup :=
  unfold resp_getHeader, resp_setIsStatic, resp_setBody, resp_setHeader, resp_setStatus,
    new_response;
  cbn [resp_headers resp_status resp_isStatic resp_version resp_body];
  rewrite ?getHeader_setHeader; cbn [getHeader]; eval_keys.

















(** What that form submission puts on the wire. *)
Example form_submission_wire :
  handleRequest newest_first site_fs site_cfg (recv_data form_submission_bytes) []
  = (Some true,
     str "HTTP/1.1 200 OK" ++ CRLF
     ++ str "Content-Type: text/html" ++ CRLF
     ++ str "Content-Length: 48" ++ CRLF
     ++ str "Connection: close" ++ CRLF ++ CRLF
     ++ str "Received form data:" ++ CRLF
     ++ str "name: ada" ++ CRLF
     ++ str "POST Successful!").
Proof. vm_compute. reflexivity. Qed.

(** ** The static branch of [sendResponse] *)

Lemma sys_sendfile_at_end (file : bytes) (count : Z) :
  (count < 2 ^ 63)%Z →
  sys_sendfile file (Z.of_nat (length file)) count = (sys_ok 0, []).
Proof.
  intros Hcount. unfold sys_sendfile. rewrite bool_decide_eq_false_2 by lia.
  rewrite Nat2Z.id, drop_all, take_nil. reflexivity.
Qed.

(** At the end of the file the loop turns without moving on. *)
Lemma sendfile_loop_at_end (turns : nat) (file : bytes) (count totalSent : Z) (data : bytes) :
  (0 ≤ totalSent < count)%Z →
  (count < 2 ^ 63)%Z →
  sendfile_loop turns file (Z.of_nat (length file)) count totalSent data = sendfile_turning data.
Proof.
  intros Hsent Hcount. induction turns as [|turns IH].
  - cbn [sendfile_loop]. by rewrite bool_decide_eq_true_2 by lia.
  - cbn [sendfile_loop]. rewrite bool_decide_eq_true_2 by lia.
    rewrite sys_sendfile_at_end by lia.
    rewrite to_size_t_small by lia. rewrite !Z.add_0_r, app_nil_r. exact IH.
Qed.

(** What [Socket::sendfile] does with a file and a count: nothing for a
    count of zero; a return of -1 for a count that is negative as an
    [ssize_t]; the first [count] bytes when the file holds them; and
    otherwise the whole file, without ever returning.  No number of turns
    changes this. *)
Lemma sendfile_loop_decided (turns : nat) (file : bytes) (count : Z) :
  (0 ≤ count < 2 ^ 64)%Z →
  sendfile_loop (S turns) file 0 count 0 [] =
    if bool_decide (count = 0)%Z then sendfile_returned 0 []
    else if bool_decide (2 ^ 63 ≤ count)%Z then sendfile_returned (-1) []
    else if bool_decide (count ≤ Z.of_nat (length file))%Z
         then sendfile_returned count (take (Z.to_nat count) file)
         else sendfile_turning file.
Proof.
  intros Hcount.
  assert (2 ^ 63 < 2 ^ 64)%Z as Hpow by reflexivity.
  cbn [sendfile_loop]. destruct (decide (count = 0%Z)) as [->|Hzero].
  - reflexivity.
  - rewrite (bool_decide_eq_false_2 (count = 0%Z)) by done.
    rewrite bool_decide_eq_true_2 by lia. rewrite Z.sub_0_r.
    unfold sys_sendfile. case_bool_decide as Hbig.
    + rewrite bool_decide_eq_false_2 by (unfold EINVAL, EAGAIN, EWOULDBLOCK; lia).
      replace (to_size_t (0 + -1)) with (2 ^ 64 - 1)%Z by reflexivity.
      destruct turns; cbn [sendfile_loop]; by rewrite bool_decide_eq_false_2 by lia.
    + cbv zeta. change (Z.to_nat 0) with 0. rewrite drop_0, Z.add_0_l, app_nil_l.
      rewrite length_take.
      case_bool_decide as Hfits.
      * replace (Z.of_nat (Z.to_nat count `min` length file)) with count by lia.
        rewrite to_size_t_small by lia.
        destruct turns; cbn [sendfile_loop]; rewrite bool_decide_eq_false_2 by lia;
          by rewrite to_ssize_t_small by lia.
      * replace (Z.to_nat count `min` length file) with (length file) by lia.
        rewrite firstn_all2 by lia.
        rewrite to_size_t_small by lia.
        apply sendfile_loop_at_end; lia.
Qed.

Lemma Socket_sendfile_decided (file : bytes) (count : Z) :
  (0 ≤ count < 2 ^ 64)%Z →
  Socket_sendfile file count =
    if bool_decide (count = 0)%Z then sendfile_returned 0 []
    else if bool_decide (2 ^ 63 ≤ count)%Z then sendfile_returned (-1) []
    else if bool_decide (count ≤ Z.of_nat (length file))%Z
         then sendfile_returned count (take (Z.to_nat count) file)
         else sendfile_turning file.
Proof. intros Hcount. unfold Socket_sendfile. by apply sendfile_loop_decided. Qed.

(** More turns tell nothing new about the loop. *)
Lemma Socket_sendfile_any_turns (turns : nat) (file : bytes) (count : Z) :
  (0 ≤ count < 2 ^ 64)%Z →
  sendfile_loop (S turns) file 0 count 0 [] = Socket_sendfile file count.
Proof.
  intros Hcount. by rewrite Socket_sendfile_decided, sendfile_loop_decided.
Qed.

(** A static response whose Content-Length reads as -1: [std::stoul] wraps
    it to 2^64 - 1, [sendfile] fails, and the text of the 500 status follows
    the head of the 200 response. *)
Example static_response_with_negative_length :
  sendResponse site_fs
    (mkResponse status.OK true (str "HTTP/1.1")
       [(str "Content-Length", str "-1"); (str "File-Path", str "/srv/www/index.html")] []) []
  = sent (str "HTTP/1.1 200 OK" ++ CRLF
          ++ str "Content-Length: -1" ++ CRLF
          ++ str "File-Path: /srv/www/index.html" ++ CRLF ++ CRLF
          ++ str "500 Internal Server Error").
Proof. vm_compute. reflexivity. Qed.

(** A static response that announces more bytes than the file holds: the
    file goes out and the call never returns. *)
Example static_response_beyond_the_file :
  sendResponse site_fs
    (mkResponse status.OK true (str "HTTP/1.1")
       [(str "Content-Length", str "18"); (str "File-Path", str "/srv/www/index.html")] []) []
  = send_never_ends (str "HTTP/1.1 200 OK" ++ CRLF
                     ++ str "Content-Length: 18" ++ CRLF
                     ++ str "File-Path: /srv/www/index.html" ++ CRLF ++ CRLF
                     ++ str "<h1>It works</h1>").
Proof. vm_compute. reflexivity. Qed.

(** ** The concrete file system *)

(** [realpath] refuses a regular file that is named with a trailing slash,
    and reads a path up to its first NUL. *)
Example tree_realpath_trailing_slash :
  tree_realpath site (str "/srv/www/index.html/") = None ∧
  tree_realpath site (str "/srv/www/") = Some (str "/srv/www") ∧
  tree_realpath site (str "/srv/www/index.html" ++ "000"%char :: str ".png")
  = Some (str "/srv/www/index.html").
Proof.
  split; [vm_compute; reflexivity|].
  split; vm_compute; reflexivity.
Qed.

(** * Further properties of the modelled code *)

(** ** More on the request parser *)

Lemma find0_drop_none (needle hay : bytes) (k : nat) :
  find0 needle hay = None → find0 needle (drop k hay) = None.
Proof.
  revert hay. induction k as [|k IH]; intros hay H; [by rewrite drop_0|].
  destruct hay as [|b hay]; [done|].
  cbn [find0] in H. destruct (is_prefix needle (b :: hay)); [done|].
  destruct (find0 needle hay) eqn:E; [done|]. simpl. by apply IH.
Qed.

Lemma find_none_of_find0 (hay needle : bytes) (pos : nat) :
  find0 needle hay = None → find hay needle pos = None.
Proof.
  intros H. unfold find. destruct (decide (pos ≤ length hay)); [|done].
  by rewrite find0_drop_none.
Qed.

(** Without a blank line in the bytes there is nothing [parse] accepts. *)
Lemma parse_needs_blank_line (rawData : bytes) :
  find0 CRLFCRLF rawData = None → ∃ why, parse rawData = inl why.
Proof.
  intros H. unfold parse.
  destruct (find rawData CRLF 0) as [startLineEnd|]; [|by eexists].
  destruct (parseStartLine _ _) as [r1|]; [|by eexists].
  cbv zeta. rewrite (find_none_of_find0 _ _ _ H). by eexists.
Qed.

(** X1.  A start line that is directly followed by the blank line, with no header
    line in between, is never accepted: the search for the end of the
    headers starts behind the first CRLF and misses the blank line. *)
Theorem parse_rejects_empty_header_block (startLine rest : bytes) :
  CR ∉ startLine →
  CR ∉ rest →
  parse (startLine ++ CRLFCRLF ++ rest) =
    match parseStartLine startLine new_request with
    | None => inl InvalidStartLine
    | Some _ => inl MissingHeadersEnd
    end.
Proof.
  intros Hsl Hrest. unfold parse.
  change (startLine ++ CRLFCRLF ++ rest) with (startLine ++ CRLF ++ (CRLF ++ rest)).
  rewrite find_zero, (find0_CRLF_line _ _ Hsl).
  unfold substr at 1. rewrite drop_0, take_app_length.
  destruct (parseStartLine startLine new_request) as [r1|]; [|done].
  cbv zeta.
  replace (startLine ++ CRLF ++ CRLF ++ rest) with ((startLine ++ CRLF) ++ CRLF ++ rest)
    by (by rewrite <- !app_assoc).
  replace (length startLine + 2) with (length (startLine ++ CRLF))
    by (rewrite length_app; simpl; lia).
  rewrite find_app_offset.
  assert (find0 CRLFCRLF (CRLF ++ rest) = None) as ->; [|done].
  unfold CRLFCRLF, CRLF. change ([CR; LF] ++ rest) with (CR :: LF :: rest).
  rewrite find0_cons_miss.
  2:{ apply not_true_iff_false. intros [tl H]%is_prefix_spec. simpl in H.
      injection H as ->. apply Hrest. apply elem_of_cons. by left. }
  rewrite find0_cons_miss.
  2:{ apply not_true_iff_false. intros [tl H]%is_prefix_spec. simpl in H. discriminate. }
  by rewrite (find0_none_first_notin CR [LF; CR; LF] rest Hrest).
Qed.

Lemma parse_rejects_empty_header_block_witness :
  parse (str "GET / HTTP/1.1" ++ CRLFCRLF ++ []) = inl MissingHeadersEnd.
Proof.
  apply (parse_rejects_empty_header_block (str "GET / HTTP/1.1") []); compute_done.
Defined.

Lemma find0_one_app (c : ascii) (l rest : bytes) :
  c ∉ l → find0 [c] (l ++ c :: rest) = Some (length l).
Proof.
  intros Hl. rewrite (find0_skip c [] l _ Hl).
  change (c :: rest) with ([c] ++ rest). rewrite find0_here. simpl. f_equal. lia.
Qed.

(** X2.  The start line is cut at its first two spaces: the method token has to
    be a valid method, the target may be any text without a space (also the
    empty text), and the version is whatever follows, unchecked. *)
Theorem parseStartLine_fields (methodTok uri version : bytes) (r : HttpRequest) :
  " "%char ∉ methodTok →
  " "%char ∉ uri →
  method.isValid (method.fromString methodTok) = true →
  parseStartLine (methodTok ++ str " " ++ uri ++ str " " ++ version) r =
    Some (req_setVersion version
           (req_setURI uri (req_setMethod (method.fromString methodTok) r))).
Proof.
  intros Hm Hu Hvalid. unfold parseStartLine.
  change (str " ") with [" "%char].
  change (methodTok ++ [" "%char] ++ uri ++ [" "%char] ++ version)
    with (methodTok ++ " "%char :: (uri ++ " "%char :: version)).
  rewrite find_zero, (find0_one_app _ _ _ Hm).
  replace (methodTok ++ " "%char :: uri ++ " "%char :: version)
    with ((methodTok ++ [" "%char]) ++ (uri ++ " "%char :: version))
    by (by rewrite <- app_assoc).
  replace (length methodTok + 1) with (length (methodTok ++ [" "%char]))
    by (rewrite length_app; simpl; lia).
  rewrite find_app_offset, (find0_one_app _ _ _ Hu). cbn [fmap option_fmap option_map].
  unfold substr, substr_from. rewrite drop_0.
  rewrite <- app_assoc. rewrite take_app_length.
  rewrite Hvalid. cbn [negb].
  replace (length (methodTok ++ [" "%char]) + length uri - length methodTok - 1)
    with (length uri) by (rewrite length_app; simpl; lia).
  replace (length (methodTok ++ [" "%char])) with (length methodTok + 1)
    by (rewrite length_app; simpl; lia).
  assert (drop (length methodTok + 1) (methodTok ++ [" "%char] ++ uri ++ " "%char :: version)
          = uri ++ " "%char :: version) as ->.
  { rewrite (app_assoc methodTok). apply drop_app_length'.
    rewrite length_app. simpl. lia. }
  assert (drop (length methodTok + 1 + length uri + 1)
            (methodTok ++ [" "%char] ++ uri ++ " "%char :: version) = version) as ->.
  { replace (methodTok ++ [" "%char] ++ uri ++ " "%char :: version)
      with ((methodTok ++ [" "%char] ++ uri ++ [" "%char]) ++ version)
      by (by rewrite <- !app_assoc).
    apply drop_app_length'. rewrite !length_app. simpl. lia. }
  by rewrite take_app_length.
Qed.

Lemma parseStartLine_fields_witness :
  parseStartLine (str "GET" ++ str " " ++ [] ++ str " " ++ str "FTP/0.9 or so") new_request =
    Some (req_setVersion (str "FTP/0.9 or so")
           (req_setURI [] (req_setMethod (method.fromString (str "GET")) new_request))).
Proof.
  apply (parseStartLine_fields (str "GET") [] (str "FTP/0.9 or so") new_request);
    compute_done.
Defined.

Lemma find_first_not_of0_run (c : ascii) (n : nat) (rest : bytes) :
  head rest ≠ Some c →
  find_first_not_of0 c (replicate n c ++ rest) = match rest with [] => None | _ => Some n end.
Proof.
  intros Hhead. induction n as [|n IH].
  - simpl. destruct rest as [|a rest]; [done|].
    simpl. rewrite bool_decide_eq_false_2; [done|]. intros ->. by apply Hhead.
  - cbn [replicate app find_first_not_of0]. rewrite bool_decide_eq_true_2 by done.
    rewrite IH. by destruct rest.
Qed.

(** Where the colon and the value of a line [name:value] are found. *)
Lemma colon_then_spaces (key value : bytes) (n : nat) :
  ":"%char ∉ key →
  head value ≠ Some " "%char →
  find (key ++ str ":" ++ replicate n " "%char ++ value) (str ":") 0 = Some (length key) ∧
  substr (key ++ str ":" ++ replicate n " "%char ++ value) 0 (length key) = key ∧
  match find_first_not_of (key ++ str ":" ++ replicate n " "%char ++ value) " "%char
          (length key + 1) with
  | Some valueStart => substr_from (key ++ str ":" ++ replicate n " "%char ++ value) valueStart
  | None => []
  end = value.
Proof.
  intros Hkey Hval.
  change (str ":") with [":"%char].
  change (key ++ [":"%char] ++ replicate n " "%char ++ value)
    with (key ++ ":"%char :: (replicate n " "%char ++ value)).
  split; [|split].
  - by rewrite find_zero, (find0_one_app _ _ _ Hkey).
  - unfold substr. by rewrite drop_0, take_app_length.
  - unfold find_first_not_of, substr_from.
    assert (drop (length key + 1) (key ++ ":"%char :: replicate n " "%char ++ value)
            = replicate n " "%char ++ value) as Hdrop.
    { replace (key ++ ":"%char :: replicate n " "%char ++ value)
        with ((key ++ [":"%char]) ++ replicate n " "%char ++ value)
        by (by rewrite <- app_assoc).
      apply drop_app_length'. rewrite length_app. simpl. lia. }
    rewrite Hdrop, (find_first_not_of0_run _ _ _ Hval).
    destruct value as [|a value].
    + done.
    + cbn [fmap option_fmap option_map].
      replace (key ++ ":"%char :: replicate n " "%char ++ a :: value)
        with ((key ++ [":"%char] ++ replicate n " "%char) ++ a :: value)
        by (by rewrite <- !app_assoc).
      apply drop_app_length'. rewrite !length_app, length_replicate. simpl. lia.
Qed.

Lemma parseHeaderLine_header_text_of (k v : bytes) (r : HttpRequest) :
  ":"%char ∉ k →
  head v ≠ Some " "%char →
  parseHeaderLine (header_text_of (k, v)) r = req_setHeader k v r.
Proof.
  intros Hcolon Hval.
  change (header_text_of (k, v)) with (k ++ str ":" ++ replicate 1 " "%char ++ v).
  destruct (colon_then_spaces k v 1 Hcolon Hval) as (Hfind & Hname & Hvalue).
  unfold parseHeaderLine. rewrite bool_decide_eq_false_2 by (by destruct k).
  rewrite Hfind. cbv zeta. by rewrite Hname, Hvalue.
Qed.

(** X3.  A header line [name:value] stores [value] under [name] with every
    space that directly follows the colon removed, however many there are
    (also none); the name is whatever precedes the first colon, the empty
    text included, and the value is stored as it is. *)
Theorem parseHeaderLine_strips_spaces (key value : bytes) (n : nat) (r : HttpRequest) :
  ":"%char ∉ key →
  head value ≠ Some " "%char →
  parseHeaderLine (key ++ str ":" ++ replicate n " "%char ++ value) r = req_setHeader key value r.
Proof.
  intros Hcolon Hval.
  destruct (colon_then_spaces key value n Hcolon Hval) as (Hfind & Hname & Hvalue).
  unfold parseHeaderLine.
  rewrite bool_decide_eq_false_2 by (by destruct key).
  rewrite Hfind. cbv zeta. by rewrite Hname, Hvalue.
Qed.

Lemma parseHeaderLine_strips_spaces_witness :
  parseHeaderLine (str "Host" ++ str ":" ++ replicate 3 " "%char ++ str "example.org") new_request
  = req_setHeader (str "Host") (str "example.org") new_request.
Proof.
  apply (parseHeaderLine_strips_spaces (str "Host") (str "example.org") 3 new_request);
    compute_done.
Defined.

(** *** Headers written by the composer are read back by the parser *)

Lemma header_block_as_lines (h : Headers) (rest : bytes) :
  h ≠ [] →
  concat (header_line <$> h) ++ CRLF ++ rest
  = join_lines (header_text_of <$> h) ++ CRLFCRLF ++ rest.
Proof.
  intros Hne. induction h as [|kv h IH]; [done|].
  destruct h as [|kv2 h].
  - simpl. unfold header_line, header_text_of. by rewrite <- !app_assoc.
  - specialize (IH ltac:(done)).
    change (concat (header_line <$> kv :: kv2 :: h))
      with (header_line kv ++ concat (header_line <$> kv2 :: h)).
    change (join_lines (header_text_of <$> kv :: kv2 :: h))
      with (header_text_of kv ++ CRLF ++ join_lines (header_text_of <$> kv2 :: h)).
    rewrite <- !app_assoc. rewrite IH.
    unfold header_line, header_text_of. by rewrite <- !app_assoc.
Qed.

Lemma getHeader_None_notin (h : Headers) (k : bytes) :
  toLower k ∉ (toLower <$> h.*1) → getHeader h k = None.
Proof.
  induction h as [|[a v] h IH]; [done|]. intros Hnot.
  change (toLower <$> ((a, v) :: h).*1) with (toLower a :: (toLower <$> h.*1)) in Hnot.
  apply not_elem_of_cons in Hnot as [Hne Hnot].
  cbn [getHeader]. rewrite bool_decide_eq_false_2 by (intros Heq; apply Hne; by symmetry).
  by apply IH.
Qed.

Lemma parse_plain_headers (h0 h : Headers) (r : HttpRequest) :
  req_headers r = h0 →
  NoDup (toLower <$> (h0 ++ h).*1) →
  Forall plain_header h →
  foldl (λ r l, parseHeaderLine l r) r (header_text_of <$> h) = with_headers (h0 ++ h) r.
Proof.
  revert h0 r. induction h as [|[k v] h IH]; intros h0 r Hr Hnd Hall.
  - rewrite app_nil_r. destruct r. simpl in Hr. by subst.
  - apply Forall_cons in Hall as [Hkv Hall].
    destruct Hkv as (Hne & Hcolon & _ & _ & Hval). cbn [fst snd] in Hne, Hcolon, Hval.
    change (header_text_of <$> (k, v) :: h)
      with (header_text_of (k, v) :: (header_text_of <$> h)).
    cbn [foldl].
    rewrite (parseHeaderLine_header_text_of k v r Hcolon Hval).
    rewrite (IH (h0 ++ [(k, v)])).
    + rewrite <- app_assoc. by destruct r.
    + unfold req_setHeader. cbn [req_headers]. rewrite Hr.
      apply setHeader_fresh, getHeader_None_notin.
      rewrite fmap_app, fmap_app in Hnd. apply NoDup_app in Hnd as (_ & Hdisj & _).
      intros Hin. apply (Hdisj _ Hin). cbn. apply elem_of_cons. by left.
    + by rewrite <- app_assoc.
    + done.
Qed.

Lemma header_text_of_plain (h : Headers) :
  Forall plain_header h → Forall header_text (header_text_of <$> h).
Proof.
  intros Hall. apply Forall_fmap. eapply Forall_impl; [exact Hall|].
  intros [k v] (Hne & _ & Hk & Hv & _). split.
  - unfold header_text_of. by destruct k.
  - unfold header_text_of. cbn [fst snd]. rewrite !elem_of_app.
    intros [H|[H|H]]; [done| |done].
    vm_compute in H. apply elem_of_cons in H as [H|H]; [discriminate|].
    apply elem_of_cons in H as [H|H]; [discriminate|]. by apply elem_of_nil in H.
Qed.

(** X4.  A block of headers as [composeResponseString] lays it out (each header
    as [Name: Value] CRLF, then a blank line) is read by [parse] as exactly
    those headers, in order, for every non-empty list of plain headers. *)
Theorem composed_headers_parse_back (startLine : bytes) (h : Headers) (body : bytes) :
  CR ∉ startLine →
  h ≠ [] →
  NoDup (toLower <$> h.*1) →
  Forall plain_header h →
  parse (startLine ++ CRLF ++ concat (header_line <$> h) ++ CRLF ++ body) =
    match parseStartLine startLine new_request with
    | None => inl InvalidStartLine
    | Some r1 =>
        match parseBody body 0 (with_headers h r1) with
        | inl why => inl (InvalidBody why)
        | inr r3 => inr r3
        end
    end.
Proof.
  intros Hsl Hne Hnd Hall.
  rewrite (header_block_as_lines h body Hne).
  change (startLine ++ CRLF ++ join_lines (header_text_of <$> h) ++ CRLFCRLF ++ body)
    with (request_bytes startLine (header_text_of <$> h) body).
  rewrite parse_request_bytes by (done || by apply header_text_of_plain).
  destruct (parseStartLine startLine new_request) as [r1|] eqn:Hstart; [|done].
  assert (req_headers r1 = []) as Hr1.
  { unfold parseStartLine in Hstart.
    destruct (find startLine (str " ") 0); [|done].
    destruct (find startLine (str " ") _); [|done].
    destruct (negb _); [done|]. by injection Hstart as <-. }
  by rewrite (parse_plain_headers [] h r1 Hr1) by done.
Qed.

Lemma composed_headers_parse_back_witness :
  parse (str "GET / HTTP/1.1" ++ CRLF
         ++ concat (header_line <$> [(str "Host", str "x"); (str "Accept", str "text/html")])
         ++ CRLF ++ []) =
    inr (mkRequest (str "GET") (str "/") (str "HTTP/1.1")
           [(str "Host", str "x"); (str "Accept", str "text/html")] []).
Proof.
  apply (composed_headers_parse_back (str "GET / HTTP/1.1")
           [(str "Host", str "x"); (str "Accept", str "text/html")] []).
  - compute_done.
  - done.
  - compute_done.
  - repeat constructor; compute_done.
Defined.

(** *** The body *)

Lemma parseHeaderLine_body (l : bytes) (r : HttpRequest) :
  req_body (parseHeaderLine l r) = req_body r.
Proof.
  unfold parseHeaderLine. case_bool_decide; [done|].
  by destruct (find l (str ":") 0).
Qed.

Lemma parseHeaderLines_body (lines : list bytes) (r : HttpRequest) :
  req_body (foldl (λ r l, parseHeaderLine l r) r lines) = req_body r.
Proof.
  revert r. induction lines as [|l lines IH]; intros r; [done|].
  cbn [foldl]. by rewrite IH, parseHeaderLine_body.
Qed.

Lemma parseStartLine_body (line : bytes) (r r1 : HttpRequest) :
  parseStartLine line r = Some r1 → req_body r1 = req_body r ∧ req_headers r1 = req_headers r.
Proof.
  unfold parseStartLine. intros H.
  destruct (find line (str " ") 0); [|done].
  destruct (find line (str " ") _); [|done].
  destruct (negb _); [done|]. by injection H as <-.
Qed.

(** X5.  Without a Content-Length header the parsed body is empty, whatever
    bytes follow the blank line. *)
Theorem body_ignored_without_content_length
    (startLine : bytes) (lines : list bytes) (body : bytes) (r : HttpRequest) :
  CR ∉ startLine →
  Forall header_text lines →
  parse (request_bytes startLine lines body) = inr r →
  req_getHeader r (str "Content-Length") = None →
  req_body r = [].
Proof.
  intros Hsl Hlines Hparse Hnone.
  rewrite parse_request_bytes in Hparse by done.
  destruct (parseStartLine startLine new_request) as [r1|] eqn:Hstart; [|done].
  apply parseStartLine_body in Hstart as [Hb1 _].
  set (r2 := foldl _ r1 lines) in Hparse.
  assert (req_body r2 = []) as Hb2.
  { unfold r2. by rewrite parseHeaderLines_body, Hb1. }
  unfold parseBody in Hparse.
  destruct (decide (0 < length body)).
  - destruct (req_getHeader r2 (str "Content-Length")) as [v|] eqn:Hcl.
    + destruct (stoul v) as [n| |]; [|done..].
      destruct (decide _); [|done]. injection Hparse as <-.
      unfold req_getHeader, req_setBody in Hnone. cbn [req_headers] in Hnone.
      unfold req_getHeader in Hcl. congruence.
    + by injection Hparse as <-.
  - by injection Hparse as <-.
Qed.

Lemma body_ignored_without_content_length_witness :
  req_body (mkRequest (str "GET") (str "/") (str "HTTP/1.1") [(str "Host", str "x")] []) = [].
Proof.
  apply (body_ignored_without_content_length (str "GET / HTTP/1.1") [str "Host: x"]
           (str "these bytes are dropped")).
  - compute_done.
  - repeat constructor; compute_done.
  - vm_compute. reflexivity.
  - vm_compute. reflexivity.
Defined.

(** X6.  With body bytes present and a Content-Length that reads as N, a parsed
    request holds exactly the first N bytes after the blank line; what
    follows them is dropped. *)
Theorem body_is_content_length_prefix
    (startLine : bytes) (lines : list bytes) (body : bytes) (r : HttpRequest)
    (v : bytes) (n : Z) :
  CR ∉ startLine →
  Forall header_text lines →
  body ≠ [] →
  parse (request_bytes startLine lines body) = inr r →
  req_getHeader r (str "Content-Length") = Some v →
  stoul v = stoul_value n →
  req_body r = take (Z.to_nat n) body ∧ (n ≤ Z.of_nat (length body))%Z.
Proof.
  intros Hsl Hlines Hbody Hparse Hcl Hn.
  rewrite parse_request_bytes in Hparse by done.
  destruct (parseStartLine startLine new_request) as [r1|] eqn:Hstart; [|done].
  set (r2 := foldl _ r1 lines) in Hparse.
  unfold parseBody in Hparse.
  rewrite decide_True in Hparse by (destruct body; [done|simpl; lia]).
  destruct (req_getHeader r2 (str "Content-Length")) as [v2|] eqn:Hcl2.
  - destruct (stoul v2) as [n2| |] eqn:Hn2; [|done..].
    destruct (decide _) as [Hle|]; [|done]. injection Hparse as <-.
    unfold req_getHeader, req_setBody in Hcl. cbn [req_headers] in Hcl.
    unfold req_getHeader in Hcl2.
    assert (v2 = v) as -> by congruence. assert (n2 = n) as -> by congruence.
    cbn [req_body]. unfold substr. rewrite drop_0. split; [done|].
    replace (length body - 0) with (length body) in Hle by lia. done.
  - injection Hparse as <-. congruence.
Qed.

Lemma body_is_content_length_prefix_witness :
  req_body (mkRequest (str "POST") (str "/submit") (str "HTTP/1.1")
              [(str "Content-Length", str "3")] (str "a=1"))
  = take (Z.to_nat 3) (str "a=1&b=2") ∧ (3 ≤ Z.of_nat (length (str "a=1&b=2")))%Z.
Proof.
  apply (body_is_content_length_prefix (str "POST /submit HTTP/1.1")
           [str "Content-Length: 3"] (str "a=1&b=2") _ (str "3") 3).
  - compute_done.
  - repeat constructor; compute_done.
  - done.
  - vm_compute. reflexivity.
  - vm_compute. reflexivity.
  - vm_compute. reflexivity.
Defined.

(** ** More on the URI resolver *)

(** X7.  Every path the resolver returns is an output of [realpath] that starts
    with the text of the canonical root and that [stat] reports as a regular
    file. *)
Theorem sanitizePath_returns_regular_file
    (fs : FileSystem) (cfg : Config) (uri path : bytes) :
  sanitizePath fs cfg uri = inl path →
  ∃ root target st,
    realpath fs (rootFolder cfg) = Some root ∧
    realpath fs target = Some path ∧
    is_prefix (with_slash root) target = true ∧
    is_prefix root path = true ∧
    stat fs path = Some st ∧ st_isreg st = true.
Proof.
  unfold sanitizePath. intros H.
  destruct (realpath fs (rootFolder cfg)) as [root|]; [|done].
  match type of H with
  | match realpath fs ?t with _ => _ end = _ => set (target := t) in *
  end.
  destruct (realpath fs target) as [fullPath|] eqn:Htarget; [|done].
  case_bool_decide as Hfind; [done|].
  destruct (stat fs fullPath) as [st|] eqn:Hst; [|done].
  destruct (st_isreg st) eqn:Hreg; [|done]. simpl in H. injection H as <-.
  exists root, target, st. repeat split; try done.
  - unfold target. case_bool_decide; apply is_prefix_app.
  - apply find0_zero_prefix. rewrite <- find_zero.
    by destruct (decide (find fullPath root 0 = Some 0)).
Qed.

Lemma sanitizePath_returns_regular_file_witness :
  ∃ root target st,
    realpath site_fs (rootFolder site_cfg) = Some root ∧
    realpath site_fs target = Some (str "/srv/www/index.html") ∧
    is_prefix (with_slash root) target = true ∧
    is_prefix root (str "/srv/www/index.html") = true ∧
    stat site_fs (str "/srv/www/index.html") = Some st ∧ st_isreg st = true.
Proof.
  apply (sanitizePath_returns_regular_file site_fs site_cfg (str "/index.html")).
  vm_compute. reflexivity.
Defined.

(** X8.  A failure of the resolver is 500, 404 or 403, and it is 500 exactly when
    the document root itself cannot be canonicalized. *)
Theorem sanitizePath_failure_codes
    (fs : FileSystem) (cfg : Config) (uri : bytes) (code : status.Code) :
  sanitizePath fs cfg uri = inr code →
  (code = status.INTERNAL_SERVER_ERROR ∧ realpath fs (rootFolder cfg) = None) ∨
  ((code = status.NOT_FOUND ∨ code = status.FORBIDDEN) ∧
   is_Some (realpath fs (rootFolder cfg))).
Proof.
  unfold sanitizePath. intros H.
  destruct (realpath fs (rootFolder cfg)) as [root|].
  - right. split; [|by eexists].
    destruct (realpath fs _) as [fullPath|]; [|left; congruence].
    case_bool_decide; [right; congruence|].
    destruct (stat fs fullPath) as [st|]; [|left; congruence].
    destruct (st_isreg st); [done|]. right. simpl in H. congruence.
  - left. split; [congruence|done].
Qed.

Lemma sanitizePath_failure_codes_witness :
  (status.FORBIDDEN = status.INTERNAL_SERVER_ERROR ∧ realpath site_fs (rootFolder site_cfg) = None) ∨
  ((status.FORBIDDEN = status.NOT_FOUND ∨ status.FORBIDDEN = status.FORBIDDEN) ∧
   is_Some (realpath site_fs (rootFolder site_cfg))).
Proof.
  apply (sanitizePath_failure_codes site_fs site_cfg (str "/..")).
  vm_compute. reflexivity.
Defined.

(** X9.  The leading slash of a URI is optional: with or without it the same
    target is resolved; the empty URI and [/] both stand for the index
    file. *)
Theorem sanitizePath_leading_slash_optional
    (fs : FileSystem) (cfg : Config) (uri : bytes) :
  head uri ≠ Some "/"%char →
  sanitizePath fs cfg ("/"%char :: uri) = sanitizePath fs cfg uri.
Proof.
  intros Hhead. unfold sanitizePath.
  destruct (realpath fs (rootFolder cfg)) as [root|]; [|done].
  destruct uri as [|c uri].
  - done.
  - assert (c ≠ "/"%char) as Hc by (intros ->; by apply Hhead).
    rewrite (bool_decide_eq_false_2 (_ :: c :: uri = [] ∨ _)).
    2:{ intros [H|H]; [done|]. vm_compute in H. discriminate. }
    rewrite (bool_decide_eq_false_2 (c :: uri = [] ∨ _)).
    2:{ intros [H|H]; [done|]. injection H as -> _. done. }
    rewrite (bool_decide_eq_true_2 ("/"%char = "/"%char)) by done.
    by rewrite (bool_decide_eq_false_2 (c = "/"%char)).
Qed.

Lemma sanitizePath_leading_slash_optional_witness :
  sanitizePath site_fs site_cfg ("/"%char :: str "index.html")
  = sanitizePath site_fs site_cfg (str "index.html").
Proof.
  apply (sanitizePath_leading_slash_optional site_fs site_cfg (str "index.html")).
  compute_done.
Defined.

(** ** More on the GET builder *)

Lemma find_last_of_notin (s : bytes) (c : ascii) : c ∉ s → find_last_of s c = None.
Proof.
  induction s as [|a s IH]; intros Hnot; [done|].
  apply not_elem_of_cons in Hnot as [Hne Hs].
  cbn [find_last_of]. rewrite (IH Hs). by rewrite bool_decide_eq_false_2.
Qed.

(** X10.  The extension is looked for in the whole canonical path: a file whose
    canonical path holds no dot at all is answered with 415. *)
Theorem get_builder_needs_a_dot
    (fs : FileSystem) (cfg : Config) (request : HttpRequest) (validPath : bytes) :
  sanitizePath fs cfg (req_uri request) = inl validPath →
  "."%char ∉ validPath →
  GetResponseBuilder_buildResponse fs cfg request = inr status.UNSUPPORTED_MEDIA_TYPE.
Proof.
  intros Hpath Hdot.
  destruct (sanitizePath_regular _ _ _ _ Hpath) as (st & Hst & Hreg).
  unfold GetResponseBuilder_buildResponse. rewrite Hpath, Hst, Hreg. cbn [negb].
  unfold extension_of. by rewrite (find_last_of_notin _ _ Hdot).
Qed.

Lemma get_builder_needs_a_dot_witness :
  GetResponseBuilder_buildResponse readme_fs site_cfg
    (mkRequest (str "GET") (str "/README") (str "HTTP/1.1") [] [])
  = inr status.UNSUPPORTED_MEDIA_TYPE.
Proof.
  apply (get_builder_needs_a_dot readme_fs site_cfg _ (str "/srv/www/README")).
  - vm_compute. reflexivity.
  - compute_done.
Defined.

Lemma sanitizePath_inr_codes
    (fs : FileSystem) (cfg : Config) (uri : bytes) (code : status.Code) :
  sanitizePath fs cfg uri = inr code →
  code = status.INTERNAL_SERVER_ERROR ∨ code = status.NOT_FOUND ∨ code = status.FORBIDDEN.
Proof.
  unfold sanitizePath. intros H.
  destruct (realpath fs (rootFolder cfg)) as [root|]; [|left; congruence].
  destruct (realpath fs _) as [fullPath|]; [|right; left; congruence].
  case_bool_decide; [right; right; congruence|].
  destruct (stat fs fullPath) as [st|]; [|right; left; congruence].
  destruct (st_isreg st); [done|]. right; right. simpl in H. congruence.
Qed.

(** X11.  A GET request is never refused with 400 or 501, nor with 200 as an
    error: the builder fails with 403, 404, 415 or 500 only. *)
Theorem get_builder_failure_codes
    (fs : FileSystem) (cfg : Config) (request : HttpRequest) (code : status.Code) :
  GetResponseBuilder_buildResponse fs cfg request = inr code →
  code = status.FORBIDDEN ∨ code = status.NOT_FOUND ∨
  code = status.UNSUPPORTED_MEDIA_TYPE ∨ code = status.INTERNAL_SERVER_ERROR.
Proof.
  unfold GetResponseBuilder_buildResponse. cbv zeta. intros H.
  destruct (sanitizePath fs cfg (req_uri request)) as [validPath|c] eqn:Hpath.
  - destruct (stat fs validPath) as [st|] eqn:Hst; [|right; left; congruence].
    destruct (negb (st_isreg st)); [right; left; congruence|].
    case_bool_decide; [right; right; left; congruence|].
    case_bool_decide; [done|].
    unfold readFile in H. destruct (ifstream_read fs validPath); [| | |done].
    + rewrite Hst in H. left. congruence.
    + right; right; right. congruence.
    + right; right; right. congruence.
  - injection H as ->.
    destruct (sanitizePath_inr_codes _ _ _ _ Hpath) as [->|[->| ->]]; auto.
Qed.

Lemma get_builder_failure_codes_witness :
  status.FORBIDDEN = status.FORBIDDEN ∨ status.FORBIDDEN = status.NOT_FOUND ∨
  status.FORBIDDEN = status.UNSUPPORTED_MEDIA_TYPE ∨
  status.FORBIDDEN = status.INTERNAL_SERVER_ERROR.
Proof.
  apply (get_builder_failure_codes site_fs site_cfg get_locked).
  vm_compute. reflexivity.
Defined.

(** X12.  Every response the GET builder returns is a 200 for the resolved path:
    a static one has an empty body and names that path in File-Path, any
    other has no File-Path and a Content-Length that is the size of its
    body. *)
Theorem get_builder_response_shape
    (fs : FileSystem) (cfg : Config) (request : HttpRequest) (response : HttpResponse) :
  GetResponseBuilder_buildResponse fs cfg request = inl response →
  resp_status response = status.OK ∧
  ∃ validPath,
    sanitizePath fs cfg (req_uri request) = inl validPath ∧
    if resp_isStatic response then
      resp_body response = [] ∧
      resp_getHeader response (str "File-Path") = Some validPath
    else
      resp_getHeader response (str "File-Path") = None ∧
      resp_getHeader response (str "Content-Length")
        = Some (to_string (N.of_nat (length (resp_body response)))).
Proof.
  unfold GetResponseBuilder_buildResponse. cbv zeta.
  destruct (sanitizePath fs cfg (req_uri request)) as [validPath|]; [|done].
  destruct (stat fs validPath) as [st|]; [|done].
  destruct (negb (st_isreg st)); [done|].
  case_bool_decide as Hmime; [done|].
  case_bool_decide as Hbig.
  - intros [= <-]. split; [done|]. exists validPath. split; [done|].
    cbn [resp_isStatic resp_setIsStatic]. split; [done|].
    header_lookup. reflexivity.
  - destruct (readFile fs validPath) as [|content]; [done|].
    intros [= <-]. split; [done|]. exists validPath. split; [done|].
    cbn [resp_isStatic resp_setIsStatic]. split; header_lookup; reflexivity.
Qed.

Lemma get_builder_response_shape_witness :
  resp_status big_response = status.OK ∧
  ∃ validPath,
    sanitizePath big_fs site_cfg (req_uri get_big) = inl validPath ∧
    if resp_isStatic big_response then
      resp_body big_response = [] ∧
      resp_getHeader big_response (str "File-Path")
        = Some validPath
    else
      resp_getHeader big_response (str "File-Path") = None ∧
      resp_getHeader big_response (str "Content-Length")
        = Some (to_string (N.of_nat (length (resp_body
             big_response)))).
Proof.
  apply (get_builder_response_shape big_fs site_cfg get_big).
  vm_compute. reflexivity.
Defined.

(** ** More on the POST builder *)

(** X13.  Parameters behind the first [;] of the Content-Type are ignored: a
    form submission to [/submit] is accepted with any of them, and the body
    of the response is the echo of the entries of the form data in the
    order in which the map is traversed. *)
Theorem post_builder_ignores_parameters
    (visit : Traversal) (request : HttpRequest) (params : bytes) :
  req_getHeader request (str "Content-Type")
    = Some (mime.toString mime.APP_FORM ++ str ";" ++ params) →
  req_uri request = str "/submit" →
  ∃ response, PostResponseBuilder_buildResponse visit request = inl response ∧
              resp_status response = status.OK ∧
              resp_body response = form_echo (form_entries visit (req_body request)).
Proof.
  intros Htype Huri. unfold PostResponseBuilder_buildResponse. rewrite Htype. cbn [default]. unfold id.
  change (str ";") with [";"%char].
  change (mime.toString mime.APP_FORM ++ [";"%char] ++ params)
    with (mime.toString mime.APP_FORM ++ ";"%char :: params).
  rewrite find_zero, find0_one_app by compute_done.
  unfold substr. rewrite drop_0, take_app_length.
  rewrite bool_decide_eq_false_2 by (intros H; by apply H).
  rewrite bool_decide_eq_false_2 by (intros H; by apply H).
  by eexists.
Qed.

Lemma post_builder_ignores_parameters_witness :
  ∃ response,
    PostResponseBuilder_buildResponse newest_first
      (mkRequest (str "POST") (str "/submit") (str "HTTP/1.1")
         [(str "Content-Type", mime.toString mime.APP_FORM ++ str ";" ++ str " charset=UTF-8")]
         (str "a=1")) = inl response ∧
    resp_status response = status.OK ∧
    resp_body response = form_echo (form_entries newest_first (str "a=1")).
Proof.
  apply (post_builder_ignores_parameters newest_first
           (mkRequest (str "POST") (str "/submit") (str "HTTP/1.1")
              [(str "Content-Type", mime.toString mime.APP_FORM ++ str ";" ++ str " charset=UTF-8")]
              (str "a=1")) (str " charset=UTF-8")).
  - vm_compute. reflexivity.
  - reflexivity.
Defined.





(** X15.  A pair is cut at its first [=]: what precedes it is the key, all that
    follows, further [=] included, is the value, both percent-decoded. *)
Theorem form_pair_splits_at_first_equals (key value : bytes) :
  "="%char ∉ key →
  form_pair (key ++ str "=" ++ value) = (encoding.decode key, encoding.decode value).
Proof.
  intros Hkey. unfold form_pair.
  change (str "=") with ["="%char].
  change (key ++ ["="%char] ++ value) with (key ++ "="%char :: value).
  rewrite find_zero, (find0_one_app _ _ _ Hkey).
  unfold substr, substr_from. rewrite drop_0, take_app_length. f_equal.
  case_bool_decide as Hlast.
  - rewrite length_app in Hlast. simpl in Hlast.
    destruct value; [done|]. simpl in Hlast. lia.
  - f_equal. replace (key ++ "="%char :: value) with ((key ++ ["="%char]) ++ value)
      by (by rewrite <- app_assoc).
    apply drop_app_length'. rewrite length_app. simpl. lia.
Qed.

Lemma form_pair_splits_at_first_equals_witness :
  form_pair (str "eq" ++ str "=" ++ str "a=b")
  = (encoding.decode (str "eq"), encoding.decode (str "a=b")).
Proof.
  apply (form_pair_splits_at_first_equals (str "eq") (str "a=b")). compute_done.
Defined.

(** X16.  When a key occurs more than once the last pair decides: the form data
    holds for a key the value of the last pair that has this key, whatever
    the pairs before it and the pairs of other keys after it are. *)
Theorem form_data_is_last_value (before after : list bytes) (keyValue body : bytes) :
  getlines "&"%char body = before ++ keyValue :: after →
  Forall (λ p, (form_pair p).1 ≠ (form_pair keyValue).1) after →
  parse_form body !! (form_pair keyValue).1 = Some (form_pair keyValue).2.
Proof.
  intros Hsplit Hafter. unfold parse_form. rewrite Hsplit, foldl_app. cbn [foldl].
  rewrite (form_fold_other_keys _ _ _ Hafter). unfold form_step. apply lookup_insert_eq.
Qed.

Lemma form_data_is_last_value_witness :
  parse_form (str "a=1&a=2&b=3") !! (form_pair (str "a=2")).1 = Some (form_pair (str "a=2")).2.
Proof.
  apply (form_data_is_last_value [str "a=1"] [str "b=3"] (str "a=2") (str "a=1&a=2&b=3")).
  - vm_compute. reflexivity.
  - repeat constructor. vm_compute. discriminate.
Defined.

(** *** Splitting at the delimiter *)

Lemma getlines_no_delim (delim : ascii) (t : bytes) :
  delim ∉ t → getlines delim t = match t with [] => [] | _ => [t] end.
Proof.
  induction t as [|c t IH]; intros Hnot; [done|].
  apply not_elem_of_cons in Hnot as [Hne Ht].
  cbn [getlines]. rewrite bool_decide_eq_false_2 by done.
  rewrite (IH Ht). by destruct t.
Qed.

Lemma getlines_token_delim (delim : ascii) (t rest : bytes) :
  delim ∉ t → getlines delim (t ++ delim :: rest) = t :: getlines delim rest.
Proof.
  induction t as [|c t IH]; intros Hnot.
  - simpl. by rewrite bool_decide_eq_true_2.
  - apply not_elem_of_cons in Hnot as [Hne Ht].
    change ((c :: t) ++ delim :: rest) with (c :: (t ++ delim :: rest)).
    cbn [getlines]. rewrite bool_decide_eq_false_2 by done. by rewrite (IH Ht).
Qed.

(** X17.  The loop over [std::getline] takes apart what [join_with] puts
    together: tokens free of the delimiter come back one by one, provided
    the last token is not empty (an empty last token is not seen). *)
Theorem getlines_join_with (delim : ascii) (toks : list bytes) :
  Forall (λ t, delim ∉ t) toks →
  last toks ≠ Some [] →
  getlines delim (join_with delim toks) = toks.
Proof.
  induction toks as [|t toks IH]; intros Hall Hlast; [done|].
  apply Forall_cons in Hall as [Ht Hall].
  destruct toks as [|t2 toks].
  - simpl. rewrite (getlines_no_delim _ _ Ht). destruct t; [|done]. by destruct Hlast.
  - change (join_with delim (t :: t2 :: toks)) with (t ++ delim :: join_with delim (t2 :: toks)).
    rewrite (getlines_token_delim _ _ _ Ht). f_equal. apply IH; [done|].
    by rewrite last_cons_cons in Hlast.
Qed.

Lemma getlines_join_with_witness :
  getlines "&"%char (join_with "&"%char [str "a=1"; []; str "b=2"]) = [str "a=1"; []; str "b=2"].
Proof.
  apply (getlines_join_with "&"%char [str "a=1"; []; str "b=2"]).
  - repeat constructor; compute_done.
  - compute_done.
Defined.

(** ** More on the response composer *)

Lemma composeResponseString_as_lines (response : HttpResponse) :
  composeResponseString response =
    join_lines (resp_getStatusLine response :: (header_text_of <$> resp_headers response))
      ++ CRLFCRLF.
Proof.
  unfold composeResponseString. destruct (resp_headers response) as [|kv h] eqn:Hh.
  - reflexivity.
  - rewrite <- (app_nil_r CRLF) at 2.
    rewrite (header_block_as_lines (kv :: h) []) by done.
    change (header_text_of <$> kv :: h) with (header_text_of kv :: (header_text_of <$> h)).
    rewrite (join_lines_cons (resp_getStatusLine response)).
    rewrite app_nil_r. by rewrite <- !app_assoc.
Qed.

Lemma status_line_text (response : HttpResponse) :
  CR ∉ resp_version response → header_text (resp_getStatusLine response).
Proof.
  intros Hv. unfold resp_getStatusLine. split.
  - intros H. apply (f_equal length) in H. rewrite !length_app in H. simpl in H. lia.
  - rewrite !elem_of_app. intros [H|[H|[H|[H|H]]]]; [done| | | |].
    + vm_compute in H. apply elem_of_cons in H as [H|H]; [discriminate|].
      by apply elem_of_nil in H.
    + by destruct (resp_status response); vm_compute in H;
        repeat (apply elem_of_cons in H as [H|H]; [discriminate|]); apply elem_of_nil in H.
    + vm_compute in H. apply elem_of_cons in H as [H|H]; [discriminate|].
      by apply elem_of_nil in H.
    + by destruct (resp_status response); vm_compute in H;
        repeat (apply elem_of_cons in H as [H|H]; [discriminate|]); apply elem_of_nil in H.
Qed.

(** X18.  In the head that [composeResponseString] writes, the first blank line is
    its own end: as long as no header carries a carriage return, nothing in
    the status line or the headers ends the header block early, and the
    body that is sent next starts right behind it. *)
Theorem composeResponseString_ends_at_first_blank_line (response : HttpResponse) :
  CR ∉ resp_version response →
  Forall (λ kv : bytes * bytes, (CR ∉ kv.1) ∧ (CR ∉ kv.2)) (resp_headers response) →
  find (composeResponseString response) CRLFCRLF 0
  = Some (length (composeResponseString response) - 4).
Proof.
  intros Hv Hh. rewrite find_zero, composeResponseString_as_lines.
  rewrite <- (app_nil_r CRLFCRLF).
  rewrite find0_headers_end.
  - f_equal. rewrite !length_app. simpl. lia.
  - apply Forall_cons. split; [by apply status_line_text|].
    apply Forall_fmap. eapply Forall_impl; [exact Hh|].
    intros [k v] [Hk Hval]. split.
    + unfold header_text_of. intros H. apply (f_equal length) in H.
      rewrite !length_app in H. simpl in H. lia.
    + unfold header_text_of. cbn [fst snd] in *. rewrite !elem_of_app.
      intros [H|[H|H]]; [done| |done].
      vm_compute in H. apply elem_of_cons in H as [H|H]; [discriminate|].
      apply elem_of_cons in H as [H|H]; [discriminate|]. by apply elem_of_nil in H.
Qed.

Lemma composeResponseString_ends_at_first_blank_line_witness :
  find (composeResponseString big_response) CRLFCRLF 0
  = Some (length (composeResponseString big_response) - 4).
Proof.
  apply (composeResponseString_ends_at_first_blank_line big_response).
  - compute_done.
  - repeat constructor; compute_done.
Defined.

(** ** More on the connection handler *)

(** X19.  A request that does not parse is answered on the 500 path, whatever is
    wrong with it: the handler reports that the connection is to be closed
    and the peer receives the text of the 500 status and nothing else. *)
Theorem unparsable_request_gets_500
    (visit : Traversal) (fs : FileSystem) (cfg : Config) (rawData wire : bytes)
    (why : ParseFailure) :
  parse rawData = inl why →
  handleRequest visit fs cfg (recv_data rawData) wire
  = (Some false, wire ++ str "500 Internal Server Error").
Proof.
  intros Hparse. unfold handleRequest, parseRequest. by rewrite Hparse.
Qed.

Lemma unparsable_request_gets_500_witness :
  handleRequest newest_first site_fs site_cfg
    (recv_data (str "GET / HTTP/1.1" ++ CRLFCRLF ++ [])) []
  = (Some false, [] ++ str "500 Internal Server Error").
Proof.
  apply (unparsable_request_gets_500 newest_first site_fs site_cfg _ [] MissingHeadersEnd).
  vm_compute. reflexivity.
Defined.

(** X20.  An error status from the builder does not close the connection.
    When a request parses and its builder answers with a status code, the
    composed error response is sent in full (head, then the text of the
    status as body) and [handleRequest] returns [true], unless the request
    carried a Connection header other than [keep-alive]. *)
Theorem error_response_keeps_connection
    (visit : Traversal) (fs : FileSystem) (cfg : Config) (rawData wire : bytes)
    (request : HttpRequest) (code : status.Code) :
  parse rawData = inr request →
  build visit fs cfg request = inr code →
  declines_keep_alive request = false →
  handleRequest visit fs cfg (recv_data rawData) wire
  = (Some true, wire ++ composeResponseString (respond request (inr code)).2
                ++ status.getCode code ++ str " " ++ status.toString code).
Proof.
  intros Hparse Hbuild Hkeep. unfold handleRequest, parseRequest.
  rewrite Hparse, Hbuild.
  assert ((respond request (inr code)).1 = true) as Hflag.
  { unfold respond. unfold declines_keep_alive in Hkeep.
    destruct (req_getHeader request (str "Connection")) as [v|]; [|done].
    destruct (bool_decide (v = str "keep-alive")); [done|]. by simpl in Hkeep. }
  assert (resp_isStatic (respond request (inr code)).2 = false
          ∧ resp_body (respond request (inr code)).2
            = status.getCode code ++ str " " ++ status.toString code) as [Hstatic Hbody].
  { unfold respond.
    destruct (req_getHeader request (str "Connection")) as [v|];
      [destruct (bool_decide (v = str "keep-alive"))|]; done. }
  destruct (respond request (inr code)) as [keepAlive response] eqn:Hrespond.
  cbn [fst snd] in *. subst keepAlive.
  unfold sendResponse. rewrite Hstatic, Hbody. unfold sock_send.
  by rewrite <- app_assoc.
Qed.

Lemma error_response_keeps_connection_witness :
  handleRequest newest_first site_fs site_cfg (recv_data get_missing_request) []
  = (Some true, [] ++ composeResponseString
                   (respond get_missing (inr status.NOT_FOUND)).2
              ++ status.getCode status.NOT_FOUND ++ str " "
              ++ status.toString status.NOT_FOUND).
Proof.
  apply (error_response_keeps_connection newest_first site_fs site_cfg get_missing_request []
           get_missing status.NOT_FOUND).
  - vm_compute. reflexivity.
  - vm_compute. reflexivity.
  - reflexivity.
Defined.

(** *** The read loop *)

Lemma find_Some_of_find0 (hay needle : bytes) :
  find0 needle hay ≠ None → ∃ i, find hay needle 0 = Some i.
Proof. rewrite find_zero. destruct (find0 needle hay); [by eexists|done]. Qed.

(** X21.  The end of the headers is looked for in everything gathered so far, so
    a blank line that is split between two reads is found; the loop then
    stops and leaves what the peer sends later unread. *)
Theorem read_loop_joins_two_reads (first second : bytes) (later : list RecvAnswer) :
  first ≠ [] →
  second ≠ [] →
  find0 CRLFCRLF first = None →
  find0 CRLFCRLF (first ++ second) ≠ None →
  read_loop (recv_got first :: recv_got second :: later) [] = Some (recv_data (first ++ second)).
Proof.
  intros Hf Hs Hnone Hsome. cbn [read_loop].
  rewrite bool_decide_eq_false_2 by done. cbn [app].
  rewrite find_zero, Hnone.
  rewrite bool_decide_eq_false_2 by done.
  destruct (find_Some_of_find0 _ _ Hsome) as [i ->]. done.
Qed.

Lemma read_loop_joins_two_reads_witness :
  read_loop (recv_got (str "GET / HTTP/1.1" ++ CRLF ++ str "Host: x" ++ [CR])
             :: recv_got ([LF; CR; LF] ++ str "late") :: [recv_got (str "later")]) []
  = Some (recv_data ((str "GET / HTTP/1.1" ++ CRLF ++ str "Host: x" ++ [CR])
                     ++ [LF; CR; LF] ++ str "late")).
Proof.
  apply (read_loop_joins_two_reads _ _ [recv_got (str "later")]).
  - done.
  - done.
  - vm_compute. reflexivity.
  - vm_compute. discriminate.
Defined.

(** X22.  When the socket would block before the blank line has arrived, the
    handler does not wait for the rest: it parses what it has, which fails,
    answers on the 500 path and asks for the connection to be closed. *)
Theorem partial_request_gets_500
    (visit : Traversal) (fs : FileSystem) (cfg : Config) (first wire : bytes)
    (later : list RecvAnswer) :
  first ≠ [] →
  find0 CRLFCRLF first = None →
  handleRequest_reading visit fs cfg (recv_got first :: recv_failed EAGAIN :: later) wire
  = Some (Some false, wire ++ str "500 Internal Server Error").
Proof.
  intros Hf Hnone. unfold handleRequest_reading. cbn [read_loop].
  rewrite bool_decide_eq_false_2 by done. cbn [app].
  rewrite find_zero, Hnone. rewrite bool_decide_eq_true_2 by (by left).
  destruct (parse_needs_blank_line _ Hnone) as [why Hwhy].
  unfold handleRequest, parseRequest. by rewrite Hwhy.
Qed.

Lemma partial_request_gets_500_witness :
  handleRequest_reading newest_first site_fs site_cfg
    (recv_got (str "GET / HTTP/1.1" ++ CRLF ++ str "Host: x") :: recv_failed EAGAIN :: []) []
  = Some (Some false, [] ++ str "500 Internal Server Error").
Proof.
  apply (partial_request_gets_500 newest_first site_fs site_cfg).
  - done.
  - vm_compute. reflexivity.
Defined.

(** ** Waiting for data *)

Lemma waitForData_proactive_bound (slices : list Slice) (k polls : nat) :
  k < 5 →
  5 - k ≤ length slices →
  ∃ w p, waitForData_proactive slices (Z.of_nat (100 * k)) polls = Some (w, p)
         ∧ p ≤ polls + (5 - k).
Proof.
  revert k polls. induction slices as [|s slices IH]; intros k polls Hk Hlen.
  - simpl in Hlen. lia.
  - cbn [waitForData_proactive].
    destruct (slice_running s); cbn [andb]; [|eexists _, _; split; [done|lia]].
    case_bool_decide as Hlt; [|eexists _, _; split; [done|lia]].
    destruct (slice_polled s); try (eexists _, _; split; [done|lia]).
    cbv zeta. case_bool_decide as Hfive; [eexists _, _; split; [done|lia]|].
    replace (Z.of_nat (100 * k) + 100)%Z with (Z.of_nat (100 * S k)) in * by lia.
    destruct (IH (S k) (S polls)) as (w & p & Hrun & Hp); [lia| simpl in Hlen; lia|].
    exists w, p. split; [done|lia].
Qed.

(** X23.  The variant with the proactive close gives up on an idle peer after
    500 ms: it never polls more than five times, and five answers of the
    environment are always enough for it to return. *)
Theorem waitForData_proactive_gives_up (slices : list Slice) :
  5 ≤ length slices →
  ∃ w polls, waitForData_proactive slices 0 0 = Some (w, polls) ∧ polls ≤ 5.
Proof.
  intros Hlen.
  destruct (waitForData_proactive_bound slices 0 0) as (w & p & Hrun & Hp); [lia..|].
  exists w, p. split; [exact Hrun|lia].
Qed.

Lemma waitForData_proactive_gives_up_witness :
  ∃ w polls,
    waitForData_proactive (replicate 5 (mkSlice true poll_nothing)) 0 0 = Some (w, polls)
    ∧ polls ≤ 5.
Proof.
  apply (waitForData_proactive_gives_up (replicate 5 (mkSlice true poll_nothing))).
  simpl. lia.
Defined.

Lemma waitForData_patient_bound (slices : list Slice) (k polls : nat) :
  k ≤ 600 →
  600 - k < length slices →
  ∃ w p, waitForData_patient slices (Z.of_nat (100 * k)) polls = Some (w, p)
         ∧ p ≤ polls + (600 - k).
Proof.
  revert k polls. induction slices as [|s slices IH]; intros k polls Hk Hlen.
  - simpl in Hlen. lia.
  - cbn [waitForData_patient].
    destruct (slice_running s); cbn [andb]; [|eexists _, _; split; [done|lia]].
    case_bool_decide as Hlt; [|eexists _, _; split; [done|lia]].
    unfold KEEP_ALIVE_TIMEOUT in Hlt.
    destruct (slice_polled s); try (eexists _, _; split; [done|lia]).
    replace (Z.of_nat (100 * k) + 100)%Z with (Z.of_nat (100 * S k)) by lia.
    destruct (IH (S k) (S polls)) as (w & p & Hrun & Hp); [lia| simpl in Hlen; lia|].
    exists w, p. split; [done|lia].
Qed.

(** X24.  The variant without the proactive close waits for at most the
    keep-alive time-out: it never polls more than 600 times (60 s in 100 ms
    steps) before it returns. *)
Theorem waitForData_patient_times_out (slices : list Slice) :
  600 < length slices →
  ∃ w polls, waitForData_patient slices 0 0 = Some (w, polls) ∧ polls ≤ 600.
Proof.
  intros Hlen.
  destruct (waitForData_patient_bound slices 0 0) as (w & p & Hrun & Hp); [lia..|].
  exists w, p. split; [exact Hrun|lia].
Qed.

Lemma waitForData_patient_times_out_witness :
  ∃ w polls,
    waitForData_patient (replicate 601 (mkSlice true poll_nothing)) 0 0 = Some (w, polls)
    ∧ polls ≤ 600.
Proof.
  apply (waitForData_patient_times_out (replicate 601 (mkSlice true poll_nothing))).
  rewrite length_replicate. lia.
Defined.

(** An idle peer is polled exactly 600 times by the patient variant and
    exactly five times by the proactive one. *)
Example waitForData_idle_peer :
  waitForData_patient (replicate 601 (mkSlice true poll_nothing)) 0 0 = Some (no_data, 600) ∧
  waitForData_proactive (replicate 5 (mkSlice true poll_nothing)) 0 0 = Some (no_data, 5).
Proof. split; vm_compute; reflexivity. Qed.

(** ** More on the keep-alive loop *)

Lemma processRequests_loop_full {Conn : Type}
    (waitForData : Conn → Waited * Conn) (handleRequest_on : Conn → bool * Conn)
    (fuel cycles : nat) (c : Conn) :
  (∀ c, (waitForData c).1 = data_ready) →
  (∀ c, (handleRequest_on c).1 = true) →
  cycles + fuel = 100 → 0 < fuel →
  ∃ c', processRequests_loop waitForData handleRequest_on fuel (Z.of_nat cycles) cycles c
        = Some (100, c').
Proof.
  intros Hready Hkeep. revert cycles c.
  induction fuel as [|fuel IH]; intros cycles c Hsum Hpos; [lia|].
  cbn [processRequests_loop].
  pose proof (Hready c) as Hr. destruct (waitForData c) as [w c1]. simpl in Hr. subst w.
  pose proof (Hkeep c1) as Hk. destruct (handleRequest_on c1) as [keepAlive c2].
  simpl in Hk. subst keepAlive. cbv zeta. unfold MAX_KEEP_ALIVE_REQUESTS.
  case_bool_decide as Hmax.
  - exists c2. do 2 f_equal. lia.
  - cbn [negb]. replace (Z.of_nat cycles + 1)%Z with (Z.of_nat (S cycles)) by lia.
    apply IH; lia.
Qed.

(** X25.  The cap is tight: a peer that always has a next request ready and never
    asks to close is served exactly 100 requests, then the loop ends. *)
Theorem keep_alive_cap_is_reached {Conn : Type}
    (waitForData : Conn → Waited * Conn) (handleRequest_on : Conn → bool * Conn) (c : Conn) :
  (∀ c, (waitForData c).1 = data_ready) →
  (∀ c, (handleRequest_on c).1 = true) →
  ∃ c', processRequests waitForData handleRequest_on 100 c = Some (100, c').
Proof.
  intros Hready Hkeep.
  unfold processRequests. change 0%Z with (Z.of_nat 0).
  apply (processRequests_loop_full waitForData handleRequest_on 100 0 c); [done|done|lia|lia].
Qed.

Lemma keep_alive_cap_is_reached_witness :
  ∃ c', processRequests (λ c : nat, (data_ready, c)) (λ c, (true, S c)) 100 0 = Some (100, c').
Proof.
  apply (keep_alive_cap_is_reached (λ c : nat, (data_ready, c)) (λ c, (true, S c)) 0); done.
Defined.

(** ** More on [Socket::send] *)

Lemma bytes_taken_nonneg (kernel : list SysResult) :
  Forall benign kernel → (0 ≤ bytes_taken kernel)%Z.
Proof.
  induction kernel as [|a kernel IH]; intros Hall; [done|].
  apply Forall_cons in Hall as [Ha Hall]. specialize (IH Hall).
  destruct a as [n|errno]; cbn [bytes_taken]; [simpl in Ha; lia|done].
Qed.

Lemma send_loop_benign (kernel : list SysResult) (len totalSent : Z) :
  (0 ≤ totalSent ≤ len)%Z → (len < 2 ^ 63)%Z →
  Forall benign kernel →
  (totalSent + bytes_taken kernel = len)%Z →
  send_loop kernel len totalSent = Some (returned len).
Proof.
  intros Hrange Hlen. revert totalSent Hrange.
  assert (2 ^ 63 < 2 ^ 64)%Z as Hpow by reflexivity.
  induction kernel as [|a kernel IH]; intros totalSent Hrange Hall Hsum.
  - cbn [bytes_taken] in Hsum. cbn [send_loop].
    rewrite bool_decide_eq_false_2 by lia.
    rewrite to_ssize_t_small by lia. do 2 f_equal. lia.
  - apply Forall_cons in Hall as [Ha Hall].
    pose proof (bytes_taken_nonneg kernel Hall) as Hrest.
    cbn [send_loop]. case_bool_decide as Hlt.
    + destruct a as [n|errno]; cbn [bytes_taken] in Hsum; simpl in Ha.
      * rewrite to_size_t_small by lia. apply IH; [lia|done|lia].
      * rewrite bool_decide_eq_true_2 by done. by apply IH.
    + rewrite to_ssize_t_small by lia. do 2 f_equal. lia.
Qed.

(** X26.  Against a kernel that is only ever short or busy, [send] keeps going
    until the buffer is out: however the bytes are split over the calls and
    however often the socket would block in between, the call returns the
    full length once the kernel has taken that many bytes. *)
Theorem Socket_send_completes (kernel : list SysResult) (len : Z) :
  (0 ≤ len < 2 ^ 63)%Z →
  Forall benign kernel →
  bytes_taken kernel = len →
  Socket_send kernel len = Some (returned len).
Proof.
  intros Hlen Hall Hsum. unfold Socket_send.
  apply send_loop_benign; [lia|lia|done|lia].
Qed.

Lemma Socket_send_completes_witness :
  Socket_send [sys_ok 4; sys_err EAGAIN; sys_ok 0; sys_err EWOULDBLOCK; sys_ok 6] 10
  = Some (returned 10).
Proof.
  apply (Socket_send_completes [sys_ok 4; sys_err EAGAIN; sys_ok 0; sys_err EWOULDBLOCK; sys_ok 6] 10).
  - split; [lia|reflexivity].
  - repeat constructor; simpl; (lia || by left).
  - reflexivity.
Defined.

(** ** The thread pool *)

Lemma pool_step_dropped (p : ThreadPool) (s : PoolStep) :
  pool_dropped (pool_step p s) = [] → pool_dropped p = [].
Proof.
  destruct s as [[fd|]| | |]; cbn [pool_step]; try done.
  - unfold enqueue. destruct (negb (isActive p)); [done|].
    destruct (pool_stop p); [|done]. cbn [pool_dropped]. by destruct (pool_dropped p).
  - unfold worker_take. destruct (task_queue p); [done|]. by destruct (isActive p).
  - unfold shutdown_join. by destruct (_ && _).
Qed.

Lemma pool_run_idle_queue (n : nat) (steps : list PoolStep) :
  pool_workers (pool_run (new_pool n) steps) = 0 →
  task_queue (pool_run (new_pool n) steps) = [].
Proof.
  unfold pool_run. induction steps as [|s steps IH] using rev_ind; [done|].
  rewrite foldl_app. cbn [foldl]. set (p := foldl pool_step (new_pool n) steps) in *.
  destruct s as [[fd|]| | |]; cbn [pool_step]; try done.
  - unfold enqueue, isActive. case_bool_decide as Hw; cbn [negb].
    + intros _. cbn [task_queue]. by apply IH.
    + destruct (pool_stop p); cbn [pool_workers]; done.
  - unfold worker_take, isActive. destruct (task_queue p) eqn:Hq; [done|].
    case_bool_decide as Hw; cbn [negb]; [|done]. intros H. by specialize (IH H).
  - unfold shutdown_join. destruct (pool_stop p); cbn [andb]; [|done].
    case_bool_decide as Hq; [done|done].
Qed.

(** X27.  Connections are handed to handlers in the order in which they were
    offered to the pool: as long as no socket has been dropped, the sockets
    already started followed by those still queued are exactly the non-null
    sockets passed to [enqueue], in order, whatever way the workers, the
    acceptor and a shutdown interleave. *)
Theorem pool_keeps_arrival_order (n : nat) (steps : list PoolStep) :
  pool_dropped (pool_run (new_pool n) steps) = [] →
  pool_started (pool_run (new_pool n) steps) ++ task_queue (pool_run (new_pool n) steps)
  = offered steps.
Proof.
  induction steps as [|s steps IH] using rev_ind; intros Hdrop; [done|].
  pose proof (pool_run_idle_queue n steps) as Hidle.
  unfold pool_run in *. rewrite foldl_app in *. cbn [foldl] in *.
  set (p := foldl pool_step (new_pool n) steps) in *.
  specialize (IH (pool_step_dropped _ _ Hdrop)).
  unfold offered. rewrite omap_app. fold (offered steps). rewrite <- IH.
  destruct s as [[fd|]| | |]; cbn [pool_step omap list_omap] in *.
  - unfold enqueue, isActive in *. case_bool_decide as Hw; cbn [negb] in *.
    + cbn [pool_started task_queue]. rewrite (Hidle Hw). by rewrite !app_nil_r.
    + destruct (pool_stop p); cbn [pool_started task_queue pool_dropped] in *.
      * by destruct (pool_dropped p).
      * by rewrite app_assoc.
  - by rewrite app_nil_r.
  - rewrite app_nil_r. unfold worker_take.
    destruct (task_queue p) as [|fd q] eqn:Hq; [by rewrite Hq|].
    destruct (isActive p); [|by rewrite Hq]. cbn [pool_started task_queue].
    by rewrite <- app_assoc.
  - by rewrite app_nil_r.
  - rewrite app_nil_r. unfold shutdown_join. by destruct (_ && _).
Qed.

Lemma pool_keeps_arrival_order_witness :
  pool_started (pool_run (new_pool 2)
     [step_enqueue (Some 7%Z); step_enqueue (Some 8%Z); step_worker_take;
      step_enqueue None; step_enqueue (Some 9%Z); step_shutdown_begin; step_worker_take])
  ++ task_queue (pool_run (new_pool 2)
     [step_enqueue (Some 7%Z); step_enqueue (Some 8%Z); step_worker_take;
      step_enqueue None; step_enqueue (Some 9%Z); step_shutdown_begin; step_worker_take])
  = offered
     [step_enqueue (Some 7%Z); step_enqueue (Some 8%Z); step_worker_take;
      step_enqueue None; step_enqueue (Some 9%Z); step_shutdown_begin; step_worker_take].
Proof.
  apply (pool_keeps_arrival_order 2). vm_compute. reflexivity.
Defined.

(** X28.  A socket is dropped only between the two halves of a shutdown.  While
    the stop flag is up and the workers are still there, [enqueue] drops
    it; once the shutdown has joined the workers of an empty queue, the pool
    counts as inactive and [enqueue] runs the handler at once on the
    caller's thread. *)
Theorem enqueue_around_shutdown (p : ThreadPool) (fd : Z) :
  isActive p = true →
  task_queue p = [] →
  pool_dropped (enqueue (Some fd) (shutdown_begin p)) = pool_dropped p ++ [fd] ∧
  pool_started (enqueue (Some fd) (shutdown_begin p)) = pool_started p ∧
  pool_dropped (enqueue (Some fd) (shutdown_join (shutdown_begin p))) = pool_dropped p ∧
  pool_started (enqueue (Some fd) (shutdown_join (shutdown_begin p))) = pool_started p ++ [fd].
Proof.
  intros Hactive Hq. unfold enqueue, shutdown_join, shutdown_begin, isActive in *.
  cbn [pool_workers pool_stop task_queue pool_started pool_dropped andb].
  rewrite Hq. rewrite (bool_decide_eq_true_2 ([] = [])) by done.
  cbn [pool_workers pool_stop task_queue pool_started pool_dropped andb].
  destruct (bool_decide (pool_workers p = 0)); [done|]. cbn [negb].
  rewrite (bool_decide_eq_true_2 (0 = 0)) by done. done.
Qed.

Lemma enqueue_around_shutdown_witness :
  pool_dropped (enqueue (Some 7%Z) (shutdown_begin (new_pool 4))) = pool_dropped (new_pool 4) ++ [7%Z] ∧
  pool_started (enqueue (Some 7%Z) (shutdown_begin (new_pool 4))) = pool_started (new_pool 4) ∧
  pool_dropped (enqueue (Some 7%Z) (shutdown_join (shutdown_begin (new_pool 4))))
    = pool_dropped (new_pool 4) ∧
  pool_started (enqueue (Some 7%Z) (shutdown_join (shutdown_begin (new_pool 4))))
    = pool_started (new_pool 4) ++ [7%Z].
Proof.
  apply (enqueue_around_shutdown (new_pool 4) 7); reflexivity.
Defined.

(** ** [EpollManager::waitForEvents] *)

(** X29.  With a positive [max_events] the caller never gets an empty list: the
    events are those the kernel reported when there are some, and otherwise
    (time-out, interrupted wait) the [max_events] zeroed entries the vector
    started with, which the caller sees as events for descriptor 0. *)
Theorem waitForEvents_never_empty (max_events : nat) (answer : EpollAnswer) (events : list Z) :
  0 < max_events →
  waitForEvents max_events answer = inr events →
  0 < length events ≤ max_events ∧
  events = match answer with
           | epoll_ready (fd :: fds) => take max_events (fd :: fds)
           | _ => replicate max_events 0%Z
           end.
Proof.
  intros Hmax. unfold waitForEvents. destruct answer as [fds|errno].
  - cbv zeta. case_bool_decide as Hcount.
    + intros [= <-]. split; [rewrite length_take in *; lia|].
      destruct fds; [|done]. rewrite take_nil in Hcount. simpl in Hcount. lia.
    + intros [= <-]. rewrite length_replicate. split; [lia|].
      destruct fds as [|fd fds]; [done|]. rewrite length_take in Hcount. simpl in Hcount. lia.
  - case_bool_decide; [done|]. intros [= <-]. rewrite length_replicate. split; [lia|done].
Qed.

Lemma waitForEvents_never_empty_witness :
  0 < length (replicate 10 0%Z) ≤ 10 ∧ replicate 10 0%Z = replicate 10 0%Z.
Proof.
  apply (waitForEvents_never_empty 10 (epoll_ready []) (replicate 10 0%Z)).
  - lia.
  - reflexivity.
Defined.

(** ** [n_utils::io_style::seperator] *)

(** X30.  Whenever the title fits with its two blanks, the line is exactly
    [lineWidth] wide, for a width of either parity. *)
Theorem seperator_has_line_width (title : bytes) (fillChar : ascii) (lineWidth : Z) :
  title ≠ [] →
  (Z.of_nat (length title) + 2 ≤ lineWidth)%Z →
  ∃ line, seperator title fillChar lineWidth = Some line ∧ Z.of_nat (length line) = lineWidth.
Proof.
  intros Hne Hfits. unfold seperator.
  rewrite bool_decide_eq_false_2 by lia. rewrite bool_decide_eq_false_2 by done.
  cbv zeta. set (totalPadding := (lineWidth - Z.of_nat (length title) - 2)%Z).
  assert (0 ≤ totalPadding)%Z as Hpos by (unfold totalPadding; lia).
  pose proof (Z.quot_rem' totalPadding 2) as Hqr.
  pose proof (Z.rem_bound_pos totalPadding 2 Hpos ltac:(lia)) as Hrem.
  assert (0 ≤ totalPadding ÷ 2)%Z as Hq by (apply Z.quot_pos; lia).
  unfold append_fill. rewrite !bool_decide_eq_false_2 by lia.
  change (str " ") with [" "%char].
  case_bool_decide as Hodd; eexists; (split; [done|]);
    rewrite !length_app, !length_replicate; cbn [length];
    unfold totalPadding in *; lia.
Qed.

Lemma seperator_has_line_width_witness :
  ∃ line, seperator (str "HTTP REQUEST") "="%char 24 = Some line ∧ Z.of_nat (length line) = 24%Z.
Proof.
  apply (seperator_has_line_width (str "HTTP REQUEST") "="%char 24).
  - done.
  - simpl. lia.
Defined.

(** A title that is wider than the line ends the program: the padding is
    negative and [append] raises inside the [noexcept] function. *)
Example seperator_title_too_wide :
  seperator (str "HTTP RESPONSE") "="%char 12 = None ∧
  seperator (str "HTTP REQUEST") "="%char 24 = Some (str "===== HTTP REQUEST =====").
Proof. split; vm_compute; reflexivity. Qed.
